(** * Collectible aggregation engine: a shallow embedding

    The development follows two source files:
    - [src/controllers/AssetsDetectionController.js]: the polling
      controller, the three source adapters and the per-cycle merge;
    - the asset controller that follows the RPC middleware in
      [src/controllers/network/createMetamaskMiddleware.js]: the keyed
      store, the normalizers and the merge with the stored lists.

    Asynchronous functions are embedded sequentially: a promise that
    rejects is [None], [try]/[catch] is a [match] on that option, and
    [Promise.all] over a list of calls is the list of their results in
    call order.  Collaborators that live outside the two files (chain
    lookups, HTTP transport, web3-utils) are fields of environment
    records. *)

From Stdlib Require Import ZArith Ascii String.
From stdpp Require Import base gmap strings list pretty.

Open Scope string_scope.
Open Scope list_scope.

Set Warnings "-clear-no-such-hyp".

(** ** JavaScript values and objects *)

Module Js.

(** The scalar values that the JSON payloads and the chain lookups put in
    the display fields of a collectible. Numbers are the integers. *)
Inductive JsVal : Type :=
  | JUndefined
  | JNull
  | JNum (n : Z)
  | JStr (s : string).

#[global] Instance JsVal_eq_dec : EqDecision JsVal.
Proof. solve_decision. Defined.

(** [if (v)], [!v], [a || b], [a && b]. *)
Definition truthy (v : JsVal) : bool :=
  match v with
  | JUndefined | JNull => false
  | JNum n => negb (n =? 0)%Z
  | JStr s => negb (String.eqb s "")
  end.

Definition js_or (a b : JsVal) : JsVal := if truthy a then a else b.

(** [a === b] on scalars. *)
Definition strict_eq (a b : JsVal) : bool := bool_decide (a = b).

(** The string a value turns into inside a template literal or when it is
    used as a property key. *)
Definition template (v : JsVal) : string :=
  match v with
  | JUndefined => "undefined"
  | JNull => "null"
  | JNum n => pretty n
  | JStr s => s
  end.

(** [String.prototype.toLowerCase], on the ASCII letters. *)
Definition lower_ascii (c : Ascii.ascii) : Ascii.ascii :=
  let n := Ascii.nat_of_ascii c in
  if (65 <=? n)%nat && (n <=? 90)%nat then Ascii.ascii_of_nat (n + 32) else c.

Fixpoint toLowerCase (s : string) : string :=
  match s with
  | EmptyString => EmptyString
  | String c s' => String (lower_ascii c) (toLowerCase s')
  end.

Fixpoint drop_chars (n : nat) (s : string) : string :=
  match n, s with
  | O, _ => s
  | S n', String _ s' => drop_chars n' s'
  | S _, EmptyString => EmptyString
  end.

(** [s.replace(pat, rep)] with a string pattern: the first occurrence. *)
Fixpoint replace (pat rep s : string) : string :=
  if String.prefix pat s then rep +:+ drop_chars (String.length pat) s
  else match s with
       | EmptyString => EmptyString
       | String c s' => String c (replace pat rep s')
       end.

(** An object used as a map from string keys, with the property order of
    JavaScript for keys that are not array indices: insertion order, and
    an assignment to an existing key keeps its place. (Index keys hold an
    underscore and contract addresses start with [0x], so none of them is
    an array index or a member of [Object.prototype].) *)
Definition jsobj (V : Type) : Type := list (string * V).

Fixpoint oget {V} (m : jsobj V) (k : string) : option V :=
  match m with
  | [] => None
  | (k', v) :: m' => if String.eqb k' k then Some v else oget m' k
  end.

Fixpoint oset {V} (m : jsobj V) (k : string) (v : V) : jsobj V :=
  match m with
  | [] => [(k, v)]
  | (k', v') :: m' =>
      if String.eqb k' k then (k', v) :: m' else (k', v') :: oset m' k v
  end.

(** [Object.keys(m)]. *)
Definition okeys {V} (m : jsobj V) : list string := map fst m.

(** [l.includes(x)] on an array of strings. *)
Definition includes (x : string) (l : list string) : bool := bool_decide (x ∈ l).

(** [m[k]] on an object of scalars: a missing property reads [undefined]. *)
Definition oread (m : jsobj JsVal) (k : string) : JsVal :=
  default JUndefined (oget m k).

End Js.

Import Js.

(** ** Provider payloads

    The shape of a record of the contract-indexer API (Covalent), as
    both files read it: [response.data.data.items] is a list of contract
    records, each with a list of per-token records. *)

Module Payload.

Record ExternalData : Type := {
  ed_name : JsVal;
  ed_description : JsVal;
  ed_image : JsVal;
}.

Record NftData : Type := {
  token_id : string;
  token_balance : JsVal;
  external_data : option ExternalData;   (* [None]: null or missing *)
  supports_erc : list string;
}.

Record Item : Type := {
  type : JsVal;
  contract_name : JsVal;
  contract_ticker_symbol : JsVal;
  contract_address : string;
  logo_url : JsVal;
  nft_data : option (list NftData);      (* [None]: null or missing *)
}.

(** A collectible as the adapters build it and as [addCollectibles]
    receives it: [{ contractAddress, tokenID, options: {...} }]. *)
Record CollectibleDetails : Type := {
  contractAddress : string;
  tokenID : string;
  options : jsobj JsVal;
}.

(** Modelled from the spec: the constants [CONTRACT_TYPE_ERC721] and
    [CONTRACT_TYPE_ERC1155] of [utils/enums], which is not among the
    sources; the standard is "canonicalized lower-case for comparisons",
    and both files test [supports_erc] against these values. *)
Definition CONTRACT_TYPE_ERC721 : string := "erc721".
Definition CONTRACT_TYPE_ERC1155 : string := "erc1155".

(** [new Set([CONTRACT_TYPE_ERC1155, CONTRACT_TYPE_ERC721])] and its [has]. *)
Definition SUPPORTED_NFT_STANDARDS : list string :=
  [CONTRACT_TYPE_ERC1155; CONTRACT_TYPE_ERC721].

Definition supported_has (v : JsVal) : bool :=
  match v with
  | JStr s => bool_decide (s ∈ SUPPORTED_NFT_STANDARDS)
  | _ => false
  end.

End Payload.

Import Payload.

(** ** The asset controller (store, normalizers, merge with stored lists) *)

Module AssetController.

Record Contract : Type := {
  ct_standard : JsVal;
  ct_address : JsVal;
  ct_description : JsVal;
  ct_logo : JsVal;
  ct_name : JsVal;
  ct_symbol : JsVal;
}.

Record Collectible : Type := {
  cl_address : string;
  cl_tokenId : string;
  cl_name : JsVal;
  cl_image : JsVal;
  cl_description : JsVal;
  cl_standard : JsVal;
  cl_tokenBalance : JsVal;
  cl_collectibleIndex : string;
}.

Record Token : Type := {
  tk_address : JsVal;
  tk_symbol : JsVal;
  tk_decimals : JsVal;
  tk_image : JsVal;
}.

#[global] Instance Contract_eq_dec : EqDecision Contract.
Proof. solve_decision. Defined.
#[global] Instance Collectible_eq_dec : EqDecision Collectible.
Proof. solve_decision. Defined.

(** [initStateObject] and the state tree of the observable store. *)
Record State : Type := {
  allCollectibleContracts : gmap string (gmap string (list Contract));
  allCollectibles : gmap string (gmap string (list Collectible));
  allTokens : gmap string (gmap string (list Token));
  collectibleContracts : list Contract;
  collectibles : list Collectible;
  tokens : list Token;
}.

Definition initStateObject : State :=
  {| allCollectibleContracts := ∅; allCollectibles := ∅; allTokens := ∅;
     collectibleContracts := []; collectibles := []; tokens := [] |}.

(** The controller: its store and [this.selectedAddress] (as the property
    key it is used for). *)
Record Controller : Type := {
  store : State;
  selectedAddress : string;
}.

(** The JSON document behind a token URI, as [get] returns it. *)
Record TokenJson : Type := {
  tj_image : option JsVal;     (* [None]: no own property [image] *)
  tj_image_url : JsVal;
  tj_name : JsVal;
}.

(** The collaborators. [None] is a rejected promise or a thrown error. *)
Record Env : Type := {
  networkType : string;        (* network.getNetworkNameFromNetworkCode() *)
  NFT_SUPPORTED_NETWORKS : string → option string;
  isAddress : string → bool;
  toChecksumAddress : string → option string;
  checkNftStandard : string → option JsVal;
  getAssetName : string → option JsVal;
  getAssetSymbol : string → option JsVal;
  getErc1155Balance : string → string → string → option JsVal;
  contractTokenURI : string → string → JsVal → option string;
  get : string → option TokenJson;
  getNftMetadata : string → option (list Item);
}.

(** *** Merging with the stored lists *)

Definition getObjectFromArrayBasedonKey {V} (oldArray : list V) (key : V → string)
  : jsobj V :=
  fold_left (λ acc x, oset acc (key x) x) oldArray [].

(** The loop [Object.keys(oldMap).forEach(x => { if (!newMap[x])
    finalArr.push(oldMap[x]) })]; a stored element is an object, so
    [!newMap[x]] holds exactly when the key is absent. *)
Definition push_missing {V} (oldMap newMap : jsobj V) (finalArr : list V) : list V :=
  fold_left
    (λ arr x,
       match oget newMap x, oget oldMap x with
       | None, Some o => arr ++ [o]
       | _, _ => arr
       end)
    (okeys oldMap) finalArr.

(** The elements that loop pushes, in order: the values of [oldMap]
    whose key [newMap] lacks. *)
Definition retained {V} (oldMap newMap : jsobj V) : list V :=
  omap (λ kv, match oget newMap kv.1 with None => Some kv.2 | Some _ => None end) oldMap.

(** The property key that [x['address']] of a contract turns into. *)
Definition byAddress (c : Contract) : string := template (ct_address c).

(** A call that pushes into an array it was given has two outcomes: the
    array it returns and the content of the argument array afterwards. *)
Record Merged (V : Type) : Type := {
  returned : list V;
  newArray_after : list V;
}.
Arguments returned {V} _.
Arguments newArray_after {V} _.

(** [finalArr] is [newArray] itself, not a copy: the pushes land in the
    caller's array, and the returned array is that same array. *)
Definition mergeContractArrays (oldArray newArray : list Contract) : Merged Contract :=
  let oldMap := getObjectFromArrayBasedonKey oldArray byAddress in
  let newMap := getObjectFromArrayBasedonKey newArray byAddress in
  let finalArr := push_missing oldMap newMap newArray in
  {| returned := finalArr; newArray_after := finalArr |}.

Definition mergeCollectibleArrays (oldArray newArray : list Collectible)
  : Merged Collectible :=
  let oldMap := getObjectFromArrayBasedonKey oldArray cl_collectibleIndex in
  let newMap := getObjectFromArrayBasedonKey newArray cl_collectibleIndex in
  let finalArr := push_missing oldMap newMap newArray in
  {| returned := finalArr; newArray_after := finalArr |}.

Arguments mergeContractArrays : simpl never.
Arguments mergeCollectibleArrays : simpl never.

(** The two merges are one function up to the key. The section names
    that function and the pieces its properties are stated with. *)
Section MergeShape.
Context {V : Type} (key : V → string).

Definition merge_by (old new : list V) : list V :=
  push_missing (getObjectFromArrayBasedonKey old key)
               (getObjectFromArrayBasedonKey new key) new.

(** [getObjectFromArrayBasedonKey] from a given accumulator. *)
Definition build (acc : jsobj V) (l : list V) : jsobj V :=
  fold_left (λ acc x, oset acc (key x) x) l acc.

(** Every value sits under its own key. *)
Definition keyed (acc : jsobj V) : Prop := ∀ k v, (k, v) ∈ acc → key v = k.

(** What the merge pushes after the new elements. *)
Definition kept_old (old new : list V) : list V :=
  retained (getObjectFromArrayBasedonKey old key) (getObjectFromArrayBasedonKey new key).
End MergeShape.

(** *** The current view *)

Definition project {V} (all : gmap string (gmap string (list V)))
  (address network : string) : list V :=
  default [] (all !! address ≫= (λ byNetwork, byNetwork !! network)).

Definition setSelectedAddress (E : Env) (A : Controller) (address : string)
  : Controller :=
  let st := store A in
  let networkType := networkType E in
  {| selectedAddress := address;
     store :=
       {| allCollectibleContracts := allCollectibleContracts st;
          allCollectibles := allCollectibles st;
          allTokens := allTokens st;
          collectibleContracts := project (allCollectibleContracts st) address networkType;
          collectibles := project (allCollectibles st) address networkType;
          tokens := project (allTokens st) address networkType |} |}.

(** The listener of [initializeNetworkSubscription], on a network store
    update whose [provider.type] is [networkType]. *)
Definition onNetworkChange (A : Controller) (networkType : string) : Controller :=
  let st := store A in
  let selectedAddress := selectedAddress A in
  {| selectedAddress := selectedAddress;
     store :=
       {| allCollectibleContracts := allCollectibleContracts st;
          allCollectibles := allCollectibles st;
          allTokens := allTokens st;
          collectibleContracts :=
            project (allCollectibleContracts st) selectedAddress networkType;
          collectibles := project (allCollectibles st) selectedAddress networkType;
          tokens := project (allTokens st) selectedAddress networkType |} |}.

(** *** Lookups behind the normalizers *)

Definition getCollectibleApi (E : Env) (contractAddress tokenId : string) : string :=
  match NFT_SUPPORTED_NETWORKS E (networkType E) with
  | Some chainId =>
      "https://api.covalenthq.com/v1/" +:+ chainId +:+ "/tokens/" +:+ contractAddress
        +:+ "/nft_metadata/" +:+ tokenId +:+ "/"
  | None => ""
  end.

Record Info : Type := {
  in_name : JsVal;
  in_image : JsVal;
  in_description : JsVal;
  in_tokenBalance : JsVal;
  in_standard : JsVal;
}.

Definition getCollectibleInformationFromTokenURI (E : Env) (A : Controller)
  (contractAddress tokenId : string) : option Info :=
  interfaceStandard ← checkNftStandard E contractAddress;
  tokenURI ← contractTokenURI E contractAddress tokenId interfaceStandard;
  object ← get E tokenURI;
  let image := match tj_image object with Some v => v | None => tj_image_url object end in
  tokenBalance ←
    (if strict_eq interfaceStandard (JStr CONTRACT_TYPE_ERC721) then Some (JNum 1)
     else getErc1155Balance E contractAddress (selectedAddress A) tokenId);
  Some {| in_image := image; in_name := tj_name object; in_tokenBalance := tokenBalance;
          in_description := JStr ""; in_standard := interfaceStandard |}.

Definition getCollectibleInfoFromApi (E : Env) (A : Controller)
  (contractAddress tokenId : string) : option Info :=
  let collectibleApi := getCollectibleApi E contractAddress tokenId in
  let collectibleInfo :=
    {| in_name := JNull; in_image := JNull; in_description := JNull;
       in_tokenBalance := JNull; in_standard := JNull |} in
  if String.eqb collectibleApi "" then Some collectibleInfo
  else
    contractData ← getNftMetadata E collectibleApi;
    match contractData with
    | item :: _ =>
        nftData ← nft_data item;
        match nftData with
        | nft0 :: _ =>
            match external_data nft0 with
            | Some ed =>
                let standard :=
                  if includes CONTRACT_TYPE_ERC1155 (supports_erc nft0)
                  then CONTRACT_TYPE_ERC1155 else CONTRACT_TYPE_ERC721 in
                tokenBalance ←
                  (if String.eqb standard CONTRACT_TYPE_ERC721 then Some (JNum 1)
                   else getErc1155Balance E contractAddress (selectedAddress A) tokenId);
                Some {| in_name := ed_name ed; in_image := ed_image ed;
                        in_description := ed_description ed;
                        in_tokenBalance := tokenBalance; in_standard := JStr standard |}
            | None => Some collectibleInfo
            end
        | [] => Some collectibleInfo
        end
    | [] => Some collectibleInfo
    end.

(** The result [None] is the empty object [{}] of the [catch] branch. *)
Definition getCollectibleInfo (E : Env) (A : Controller)
  (contractAddress tokenId : string) (detectFromApi : bool) : option Info :=
  let fromTokenURI :=
    checksummed ← toChecksumAddress E contractAddress;
    getCollectibleInformationFromTokenURI E A checksummed tokenId in
  if detectFromApi then
    info ← getCollectibleInfoFromApi E A contractAddress tokenId;
    if truthy (in_name info) && truthy (in_image info) then Some info else fromTokenURI
  else fromTokenURI.

(** [{}]: every property reads [undefined]. *)
Definition empty_contract : Contract :=
  {| ct_standard := JUndefined; ct_address := JUndefined; ct_description := JUndefined;
     ct_logo := JUndefined; ct_name := JUndefined; ct_symbol := JUndefined |}.

Definition getCollectibleContractInformationFromContract (E : Env)
  (contractAddress : string) (standard : JsVal) : option Contract :=
  name ← getAssetName E contractAddress;
  symbol ← getAssetSymbol E contractAddress;
  Some {| ct_name := name; ct_symbol := symbol; ct_standard := standard;
          ct_address := JUndefined; ct_description := JUndefined; ct_logo := JUndefined |}.

Definition getCollectibleContractInformationFromApi (E : Env)
  (contractAddress : string) : option Contract :=
  let collectibleContractApi := getCollectibleApi E contractAddress "1" in
  contractData ← getNftMetadata E collectibleContractApi;
  match contractData with
  | item :: _ =>
      Some {| ct_name := contract_name item; ct_symbol := contract_ticker_symbol item;
              ct_logo := logo_url item; ct_standard := JUndefined;
              ct_address := JUndefined; ct_description := JUndefined |}
  | [] =>
      Some {| ct_name := JNull; ct_symbol := JNull; ct_logo := JNull;
              ct_standard := JUndefined; ct_address := JUndefined;
              ct_description := JUndefined |}
  end.

Definition with_standard (information : Contract) (standard : JsVal) : Contract :=
  {| ct_standard := standard; ct_address := ct_address information;
     ct_description := ct_description information; ct_logo := ct_logo information;
     ct_name := ct_name information; ct_symbol := ct_symbol information |}.

Definition getCollectibleContractInformation (E : Env) (contractAddress : string)
  (detectFromApi : bool) : Contract :=
  let body :=
    standard ← checkNftStandard E contractAddress;
    let fromContract :=
      (* called with one argument: the [standard] parameter is undefined *)
      information ← getCollectibleContractInformationFromContract E contractAddress JUndefined;
      Some (with_standard information standard) in
    if detectFromApi then
      information ← getCollectibleContractInformationFromApi E contractAddress;
      if truthy (ct_name information) && truthy (ct_symbol information)
      then Some (with_standard information standard)
      else fromContract
    else fromContract in
  default empty_contract body.

(** *** The normalizers *)

Record ContractDetails : Type := {
  cd_contractAddress : string;
  cd_contractName : JsVal;
  cd_contractSymbol : JsVal;
  cd_standard : JsVal;
  cd_contractImage : JsVal;
  cd_contractDescription : JsVal;
}.

Definition checksum_if_address (E : Env) (a : string) : option string :=
  if isAddress E a then toChecksumAddress E a else Some a.

Definition _normalizeContractDetails (E : Env) (contractDetails : ContractDetails)
  (detectFromApi : bool) : option Contract :=
  let contractAddress := cd_contractAddress contractDetails in
  let contractName := cd_contractName contractDetails in
  let contractSymbol := cd_contractSymbol contractDetails in
  let standard := cd_standard contractDetails in
  let contractImage := cd_contractImage contractDetails in
  let contractDescription := cd_contractDescription contractDetails in
  _contractAddress ← checksum_if_address E contractAddress;
  let normalizedContractInfo :=
    if truthy contractName && truthy contractSymbol && truthy standard then
      {| ct_standard := standard; ct_address := JStr _contractAddress;
         ct_description := js_or contractDescription (JStr "");
         ct_logo := contractImage; ct_name := contractName; ct_symbol := contractSymbol |}
    else
      let fetched := getCollectibleContractInformation E contractAddress detectFromApi in
      {| ct_standard := ct_standard fetched;
         ct_logo := if truthy (ct_logo fetched) then ct_logo fetched else contractImage;
         ct_address := JStr _contractAddress;
         ct_description := js_or contractDescription (JStr "");
         ct_name := ct_name fetched; ct_symbol := ct_symbol fetched |} in
  if negb (truthy (ct_standard normalizedContractInfo)) then
    match checkNftStandard E contractAddress with
    | Some probed => Some (with_standard normalizedContractInfo probed)
    | None => Some empty_contract
    end
  else Some normalizedContractInfo.

Record CollectibleArgs : Type := {
  ca_address : string;
  ca_name : JsVal;
  ca_image : JsVal;
  ca_description : JsVal;
  ca_standard : JsVal;
  ca_tokenBalance : JsVal;
  ca_tokenID : string;
}.

Definition with_tokenBalance (c : Collectible) (b : JsVal) : Collectible :=
  {| cl_address := cl_address c; cl_tokenId := cl_tokenId c; cl_name := cl_name c;
     cl_image := cl_image c; cl_description := cl_description c;
     cl_standard := cl_standard c; cl_tokenBalance := b;
     cl_collectibleIndex := cl_collectibleIndex c |}.

(** [{ ...normalizedCollectibleInfo, ...collectibleInfo }]. *)
Definition spread_info (c : Collectible) (collectibleInfo : option Info) : Collectible :=
  match collectibleInfo with
  | None => c
  | Some i =>
      {| cl_address := cl_address c; cl_tokenId := cl_tokenId c;
         cl_name := in_name i; cl_image := in_image i;
         cl_description := in_description i; cl_standard := in_standard i;
         cl_tokenBalance := in_tokenBalance i;
         cl_collectibleIndex := cl_collectibleIndex c |}
  end.

Definition _normalizeCollectibleDetails (E : Env) (A : Controller)
  (collectibleDetails : CollectibleArgs) (detectFromApi : bool) : option Collectible :=
  let name := ca_name collectibleDetails in
  let image := ca_image collectibleDetails in
  let standard := ca_standard collectibleDetails in
  let address := ca_address collectibleDetails in
  let tokenID := ca_tokenID collectibleDetails in
  _contractAddress ← checksum_if_address E address;
  let collectibleIndex := _contractAddress +:+ "_" +:+ tokenID in
  let normalizedCollectibleInfo :=
    {| cl_address := _contractAddress; cl_tokenId := tokenID; cl_name := name;
       cl_image := image; cl_description := ca_description collectibleDetails;
       cl_standard := standard; cl_tokenBalance := ca_tokenBalance collectibleDetails;
       cl_collectibleIndex := collectibleIndex |} in
  let normalizedCollectibleInfo :=
    if negb (truthy name) || negb (truthy image) || negb (truthy standard)
       || negb (supported_has standard)
    then spread_info normalizedCollectibleInfo
           (getCollectibleInfo E A address tokenID detectFromApi)
    else normalizedCollectibleInfo in
  if negb (truthy (cl_tokenBalance normalizedCollectibleInfo)) then
    if strict_eq (cl_standard normalizedCollectibleInfo) (JStr CONTRACT_TYPE_ERC721) then
      Some (with_tokenBalance normalizedCollectibleInfo (JNum 1))
    else if strict_eq (cl_standard normalizedCollectibleInfo) (JStr CONTRACT_TYPE_ERC1155) then
      (* the awaited balance is not assigned to anything *)
      match getErc1155Balance E _contractAddress (selectedAddress A) tokenID with
      | Some _ => Some normalizedCollectibleInfo
      | None => Some (with_tokenBalance normalizedCollectibleInfo JNull)
      end
    else Some normalizedCollectibleInfo
  else Some normalizedCollectibleInfo.

(** *** addCollectibles *)

(** What the first loop of [addCollectibles] accumulates:
    [collectibleTempIndex] (an object used as a set; contract addresses
    and collectible indices share it) and the two lists of started
    normalizations. *)
Record Pending : Type := {
  collectibleTempIndex : gset string;
  contractPromises : list ContractDetails;
  collectiblePromises : list CollectibleArgs;
}.

Definition no_pending : Pending :=
  {| collectibleTempIndex := ∅; contractPromises := []; collectiblePromises := [] |}.

Definition schedule (p : Pending) (collectibleInfo : CollectibleDetails) : Pending :=
  let options := options collectibleInfo in
  let tokenID := tokenID collectibleInfo in
  let contractAddress := contractAddress collectibleInfo in
  if negb (String.eqb tokenID "") && negb (String.eqb contractAddress "") then
    let collectibleIndex := contractAddress +:+ "_" +:+ tokenID in
    let p :=
      if bool_decide (contractAddress ∈ collectibleTempIndex p) then p
      else
        {| contractPromises :=
             contractPromises p ++
               [ {| cd_contractAddress := contractAddress;
                    cd_contractName := oread options "contractName";
                    cd_contractSymbol := oread options "contractSymbol";
                    cd_standard := oread options "standard";
                    cd_contractImage := oread options "contractImage";
                    cd_contractDescription := oread options "contractDescription" |} ];
           collectibleTempIndex := {[ contractAddress ]} ∪ collectibleTempIndex p;
           collectiblePromises := collectiblePromises p |} in
    if bool_decide (collectibleIndex ∈ collectibleTempIndex p) then p
    else
      {| collectiblePromises :=
           collectiblePromises p ++
             [ {| ca_address := contractAddress;
                  ca_name := oread options "name";
                  ca_image := oread options "image";
                  ca_description := oread options "description";
                  ca_standard := oread options "standard";
                  ca_tokenBalance := oread options "tokenBalance";
                  ca_tokenID := tokenID |} ];
         collectibleTempIndex := {[ collectibleIndex ]} ∪ collectibleTempIndex p;
         contractPromises := contractPromises p |}
  else p.

Definition keep_contract (assetDetail : Contract) : bool :=
  truthy (ct_name assetDetail) && truthy (ct_symbol assetDetail).

Definition keep_collectible (assetDetail : Collectible) : bool :=
  truthy (cl_name assetDetail) && truthy (cl_standard assetDetail)
  && truthy (cl_tokenBalance assetDetail).

(** The body of the [try]: [None] when [Promise.all] rejects, in which
    case the [catch] logs and the store is left as it was. *)
Definition addCollectibles_try (E : Env) (A : Controller)
  (items : list CollectibleDetails) (detectFromApi : bool) : option State :=
  let p := fold_left schedule items no_pending in
  contractDetails ← mapM (λ d, _normalizeContractDetails E d detectFromApi)
                       (contractPromises p);
  collectibleDetails ← mapM (λ d, _normalizeCollectibleDetails E A d detectFromApi)
                          (collectiblePromises p);
  let newCollectibleContracts := filter (λ c, keep_contract c = true) contractDetails in
  let newCollectibles := filter (λ c, keep_collectible c = true) collectibleDetails in
  let initState := store A in
  let oldCollectibles := collectibles initState in
  let oldCollectibleContracts := collectibleContracts initState in
  let mergedContracts :=
    mergeContractArrays oldCollectibleContracts newCollectibleContracts in
  let finalContracts := returned mergedContracts in
  let newCollectibleContracts := newArray_after mergedContracts in
  let mergedCollectibles := mergeCollectibleArrays oldCollectibles newCollectibles in
  let finalCollectibles := returned mergedCollectibles in
  let newCollectibles := newArray_after mergedCollectibles in
  let selectedAddress := selectedAddress A in
  let networkType := networkType E in
  let addressCollectibles := default ∅ (allCollectibles initState !! selectedAddress) in
  let newAddressCollectibles := <[networkType := finalCollectibles]> addressCollectibles in
  let newAllCollectibles :=
    <[selectedAddress := newAddressCollectibles]> (allCollectibles initState) in
  let addressCollectibleContracts :=
    default ∅ (allCollectibleContracts initState !! selectedAddress) in
  let newAddressCollectibleContracts :=
    <[networkType := finalContracts]> addressCollectibleContracts in
  let newAllCollectibleContracts :=
    <[selectedAddress := newAddressCollectibleContracts]> (allCollectibleContracts initState) in
  Some {| allCollectibleContracts := newAllCollectibleContracts;
          collectibleContracts := newCollectibleContracts;
          allCollectibles := newAllCollectibles;
          collectibles := newCollectibles;
          allTokens := allTokens initState;
          tokens := tokens initState |}.

Definition addCollectibles (E : Env) (A : Controller)
  (items : list CollectibleDetails) (detectFromApi : bool) : Controller :=
  match addCollectibles_try E A items detectFromApi with
  | Some st => {| store := st; selectedAddress := selectedAddress A |}
  | None => A
  end.

(** The index key under which the first loop records a collectible. *)
Definition rawIndex (x : CollectibleArgs) : string :=
  ca_address x +:+ "_" +:+ ca_tokenID x.

(** A contract that passes the test of the second loop. *)
Definition named (c : Contract) : Prop :=
  truthy (ct_name c) = true ∧ truthy (ct_symbol c) = true.

(** Every contract of the current view and of every scope is [named]. *)
Definition contracts_named (st : State) : Prop :=
  Forall named (collectibleContracts st)
  ∧ ∀ address byNetwork network l,
      allCollectibleContracts st !! address = Some byNetwork →
      byNetwork !! network = Some l → Forall named l.

(** *** The states the store goes through

    The store starts as [initStateObject]; its collectible lists change
    only through [addCollectibles], [setSelectedAddress] and the network
    listener, each in the environment of its own time. *)
Inductive step (A : Controller) : Controller → Prop :=
  | step_addCollectibles E items detectFromApi :
      step A (addCollectibles E A items detectFromApi)
  | step_setSelectedAddress E address :
      step A (setSelectedAddress E A address)
  | step_onNetworkChange networkType :
      step A (onNetworkChange A networkType).

Inductive reachable : Controller → Prop :=
  | reachable_init selected :
      reachable {| store := initStateObject; selectedAddress := selected |}
  | reachable_step A A' : reachable A → step A A' → reachable A'.

End AssetController.

(** ** The detection controller (scheduler, adapters, per-cycle merge) *)

Module AssetsDetection.

(** A user-supplied entry of [customNfts]. *)
Record CustomNft : Type := {
  nft_address : string;
  nft_id : string;
  nft_contract_standard : string;
  network : string;
  description : JsVal;
  nft_image_link : JsVal;
  nft_name : JsVal;
}.

(** What [NftHandler.getNftMetadata] resolves to, with the property names
    the controller reads. *)
Record NftMetadata : Type := {
  decription : JsVal;
  nftImageLink : JsVal;
  nftName : JsVal;
}.

(** A record of the marketplace API (OpenSea). *)
Record AssetContract : Type := {
  schema_name : option string;     (* [None]: null or missing *)
  ac_address : string;
  ac_name : JsVal;
  ac_symbol : JsVal;
  ac_image_url : option string;    (* [None]: null or missing *)
  total_supply : JsVal;
  ac_description : JsVal;
}.

Record Asset : Type := {
  as_token_id : string;
  as_image_url : JsVal;
  as_name : JsVal;
  as_description : JsVal;
  asset_contract : AssetContract;
}.

(** [response.data] of the marketplace API. *)
Record OpenSeaData : Type := {
  assets : list Asset;
  results : list Asset;
}.

(** The collaborators of the detection controller, and the constants of
    [utils/enums] that the file imports ([utils/enums] is not among the
    sources): the three network names and the set of recognized
    standards. The asset controller shares the network and the table
    [NFT_SUPPORTED_NETWORKS] through [store_env]. *)
Record Env : Type := {
  store_env : AssetController.Env;
  MAINNET : string;
  MATIC : string;
  BSC_MAINNET : string;
  SUPPORTED_NFT_STANDARDS : list string;
  isMain : bool;
  (* new NftHandler({ address, tokenId, userAddress, nftStandard, ... }) *)
  fetchNftBalance : string → string → string → string → option JsVal;
  getNftMetadata : string → string → string → string → option NftMetadata;
  getCovalentNfts : string → option (list Item);
  getOpenSeaCollectibles : string → option OpenSeaData;
}.

Definition getNetworkNameFromNetworkCode (E : Env) : string :=
  AssetController.networkType (store_env E).

Definition supportedNetwork (E : Env) (network : string) : option string :=
  AssetController.NFT_SUPPORTED_NETWORKS (store_env E) network.

(** The controller object. [_handle] is the identifier of the timer the
    controller armed last; [currentNetwork] is [None] for [null]; a user
    without [customNfts] has no entry in the preferences state. *)
Record Controller : Type := {
  selectedAddress : string;
  currentNetwork : option string;
  selectedCustomNfts : list string;
  _preferencesStore : option (gmap string (list CustomNft));
  _handle : option nat;
  assetController : AssetController.Controller;
}.

Definition set_selectedAddress (C : Controller) (a : string) : Controller :=
  {| selectedAddress := a; currentNetwork := currentNetwork C;
     selectedCustomNfts := selectedCustomNfts C; _preferencesStore := _preferencesStore C;
     _handle := _handle C; assetController := assetController C |}.

Definition set_currentNetwork (C : Controller) (n : option string) : Controller :=
  {| selectedAddress := selectedAddress C; currentNetwork := n;
     selectedCustomNfts := selectedCustomNfts C; _preferencesStore := _preferencesStore C;
     _handle := _handle C; assetController := assetController C |}.

Definition set_selectedCustomNfts (C : Controller) (l : list string) : Controller :=
  {| selectedAddress := selectedAddress C; currentNetwork := currentNetwork C;
     selectedCustomNfts := l; _preferencesStore := _preferencesStore C;
     _handle := _handle C; assetController := assetController C |}.

Definition set_handle (C : Controller) (h : option nat) : Controller :=
  {| selectedAddress := selectedAddress C; currentNetwork := currentNetwork C;
     selectedCustomNfts := selectedCustomNfts C; _preferencesStore := _preferencesStore C;
     _handle := h; assetController := assetController C |}.

Definition set_assetController (C : Controller) (A : AssetController.Controller)
  : Controller :=
  {| selectedAddress := selectedAddress C; currentNetwork := currentNetwork C;
     selectedCustomNfts := selectedCustomNfts C; _preferencesStore := _preferencesStore C;
     _handle := _handle C; assetController := A |}.

Definition isMainnet (E : Env) : bool :=
  String.eqb (getNetworkNameFromNetworkCode E) (MAINNET E).

Definition isMatic (E : Env) : bool :=
  String.eqb (getNetworkNameFromNetworkCode E) (MATIC E).

(** The index key of a collectible in the three adapters:
    [`${contractAddress.toLowerCase()}_${tokenID.toString()}`]. *)
Definition collectibleIndex (c : CollectibleDetails) : string :=
  toLowerCase (contractAddress c) +:+ "_" +:+ tokenID c.

(** *** The user-supplied adapter *)

(** The body of the [try] for one entry: [None] is the [catch], which
    logs and yields [undefined]. *)
Definition resolveCustomNft (E : Env) (C : Controller) (x : CustomNft)
  : option CollectibleDetails :=
  balance ← fetchNftBalance E (nft_address x) (nft_id x) (selectedAddress C)
              (nft_contract_standard x);
  if strict_eq balance (JNum 0) then None  (* 'Nft not owned by user anymore' *)
  else
    '(description, nft_image_link, nft_name) ←
      (if negb (truthy (description x)) || negb (truthy (nft_image_link x))
          || negb (truthy (nft_name x))
       then
         nftMetadata ← getNftMetadata E (nft_address x) (nft_id x) (selectedAddress C)
                         (nft_contract_standard x);
         Some (decription nftMetadata, nftImageLink nftMetadata, nftName nftMetadata)
       else Some (description x, nft_image_link x, nft_name x));
    Some
      {| contractAddress := nft_address x;
         tokenID := nft_id x;
         options :=
           [ ("contractName", nft_name);
             ("contractSymbol", nft_name);
             ("contractImage", nft_image_link);
             ("contractFallbackLogo", nft_image_link);
             ("standard", JStr (toLowerCase (nft_contract_standard x)));
             ("contractDescription", description);
             ("description", description);
             ("image", nft_image_link);
             ("name", JStr (template nft_name +:+ "#" +:+ nft_id x));
             ("tokenBalance", balance) ] |}.

(** One callback of the [map]: the entry of the result array and the
    assignment to [collectiblesMap]. *)
Definition customStep (E : Env) (C : Controller)
  (acc : list (option CollectibleDetails) * jsobj CollectibleDetails) (x : CustomNft)
  : list (option CollectibleDetails) * jsobj CollectibleDetails :=
  match resolveCustomNft E C x with
  | Some collectible =>
      (acc.1 ++ [Some collectible], oset acc.2 (collectibleIndex collectible) collectible)
  | None => (acc.1 ++ [None], acc.2)
  end.

(** [None]: the call throws ([customNfts] is undefined). *)
Definition getCustomNfts (E : Env) (C : Controller)
  (customNfts : option (list CustomNft)) (forceUpdateStore : bool)
  : option (Controller * (list CollectibleDetails * jsobj CollectibleDetails)) :=
  let collectiblesMap : jsobj CollectibleDetails := [] in
  let userAddress := selectedAddress C in
  if String.eqb userAddress "" then Some (C, ([], collectiblesMap))
  else
    customNfts ← customNfts;
    let C := set_selectedCustomNfts C (map nft_address customNfts) in
    let localNetwork := getNetworkNameFromNetworkCode E in
    let currentNetworkTokens := filter (λ x, network x = localNetwork) customNfts in
    let '(nonZeroTokens, collectiblesMap) :=
      fold_left (customStep E C) currentNetworkTokens ([], collectiblesMap) in
    let nonZeroTokens := omap id nonZeroTokens in
    let C :=
      if forceUpdateStore
      then set_assetController C
             (AssetController.addCollectibles (store_env E) (assetController C)
                nonZeroTokens false)
      else C in
    Some (C, (nonZeroTokens, collectiblesMap)).

(** *** Fetching from the providers *)

Definition getOwnerCollectiblesApi_opensea (E : Env) (C : Controller) (address : string)
  : string :=
  if bool_decide (currentNetwork C = Some (MAINNET E)) then
    "https://api.opensea.io/api/v1/assets?owner=" +:+ address +:+ "&limit=300"
  else if bool_decide (currentNetwork C = Some (MATIC E)) then
    "https://api.opensea.io/api/v2/assets/matic?owner=" +:+ address +:+ "&limit=300"
  else "".

Definition currentChainId (E : Env) (C : Controller) : option string :=
  currentNetwork C ≫= supportedNetwork E.

Definition getOwnerCollectiblesApi_covalent (E : Env) (C : Controller) (address : string)
  : string :=
  match currentChainId E C with
  | Some chainId =>
      "https://api.covalenthq.com/v1/" +:+ chainId +:+ "/address/" +:+ address
        +:+ "/balances_v2/?nft=true&no-nft-fetch=false"
  | None => ""
  end.

(** [getOwnerCollectibles('covalent')]: the items of the response, and
    the empty list when the network has no chain id or the call fails. *)
Definition getOwnerCollectibles_covalent (E : Env) (C : Controller) : list Item :=
  let api := getOwnerCollectiblesApi_covalent E C (selectedAddress C) in
  match currentChainId E C with
  | Some _ => default [] (getCovalentNfts E api)
  | None => []
  end.

(** [getOwnerCollectibles('opensea')]. *)
Definition getOwnerCollectibles_opensea (E : Env) (C : Controller) : list Asset :=
  let api := getOwnerCollectiblesApi_opensea E C (selectedAddress C) in
  match getOpenSeaCollectibles E api with
  | Some data =>
      if isMainnet E then assets data
      else if isMatic E then results data
      else []
  | None => []
  end.

(** *** The contract-indexer adapter (Covalent) *)

(** The variables the loop over [nft_data] updates: the running
    [contractName], [contractFallbackLogo], the index [i], and the two
    results of the adapter. *)
Record CovalentLoop : Type := {
  contractName : JsVal;
  contractFallbackLogo : JsVal;
  loop_i : nat;
  collectibles : list CollectibleDetails;
  collectiblesMap : jsobj CollectibleDetails;
}.

Definition covalentToken (protocolPrefix : string) (item : Item) (s : CovalentLoop)
  (nft : NftData) : CovalentLoop :=
  let tokenID := token_id nft in
  let tokenBalance := token_balance nft in
  let '(contractName, standard) :=
    if includes "erc1155" (supports_erc nft)
    then (JStr (template (contractName s) +:+ " (" +:+ protocolPrefix +:+ "1155)"),
          CONTRACT_TYPE_ERC1155)
    else (JStr (template (contractName s) +:+ " (" +:+ protocolPrefix +:+ "721)"),
          CONTRACT_TYPE_ERC721) in
  let name := default JUndefined (ed_name <$> external_data nft) in
  let description := default JUndefined (ed_description <$> external_data nft) in
  let imageURL :=
    js_or (default JUndefined (ed_image <$> external_data nft))
          (JStr "/images/nft-placeholder.svg") in
  let contractFallbackLogo :=
    if bool_decide (loop_i s = 0) then imageURL else contractFallbackLogo s in
  let collectibleDetails :=
    {| contractAddress := contract_address item;
       tokenID := tokenID;
       options :=
         [ ("contractName", contractName);
           ("contractSymbol", contract_ticker_symbol item);
           ("contractImage", logo_url item);
           ("contractFallbackLogo", contractFallbackLogo);
           ("standard", JStr standard);
           ("contractDescription", JStr "");
           ("description", description);
           ("image", imageURL);
           ("name", js_or name (JStr (template contractName +:+ "#" +:+ tokenID)));
           ("tokenBalance", tokenBalance) ] |} in
  {| contractName := contractName;
     contractFallbackLogo := contractFallbackLogo;
     loop_i := S (loop_i s);
     collectibles := collectibles s ++ [collectibleDetails];
     collectiblesMap :=
       oset (collectiblesMap s) (collectibleIndex collectibleDetails) collectibleDetails |}.

(** The body of the loop over the items of the response. *)
Definition covalentItem (protocolPrefix : string)
  (acc : list CollectibleDetails * jsobj CollectibleDetails) (item : Item)
  : list CollectibleDetails * jsobj CollectibleDetails :=
  if strict_eq (type item) (JStr "nft") then
    match nft_data item with
    | Some ((_ :: _) as nft_data) =>
        let s :=
          fold_left (covalentToken protocolPrefix item) nft_data
            {| contractName := contract_name item; contractFallbackLogo := JUndefined;
               loop_i := 0; collectibles := acc.1; collectiblesMap := acc.2 |} in
        (collectibles s, collectiblesMap s)
    | _ => acc
    end
  else acc.

(** The collectibles that one record of the response contributes, and
    the text one token of the record appends to the running label. *)
Definition recordCollectibles (protocolPrefix : string) (item : Item)
  : list CollectibleDetails :=
  (covalentItem protocolPrefix ([], []) item).1.

Definition labelSuffix (protocolPrefix : string) (nft : NftData) : string :=
  if includes "erc1155" (supports_erc nft)
  then " (" +:+ protocolPrefix +:+ "1155)"
  else " (" +:+ protocolPrefix +:+ "721)".

Definition concatStrings (l : list string) : string :=
  foldr String.append "" l.

Definition protocolPrefixOf (E : Env) (network : string) : string :=
  if String.eqb network (BSC_MAINNET E) then "BEP" else "ERC".

Definition detectCollectiblesFromCovalent (E : Env) (C : Controller) (network : string)
  : Controller * (list CollectibleDetails * jsobj CollectibleDetails) :=
  let selectedAddress := selectedAddress C in
  if String.eqb selectedAddress "" then (C, ([], []))
  else
    let protocolPrefix := protocolPrefixOf E network in
    let C :=
      set_assetController C
        (AssetController.setSelectedAddress (store_env E) (assetController C)
           selectedAddress) in
    let apiCollectibles := getOwnerCollectibles_covalent E C in
    (C, fold_left (covalentItem protocolPrefix) apiCollectibles ([], [])).

(** *** The marketplace adapter (OpenSea) *)

Definition upgradeThumbnail (contractImage : option string) : string :=
  replace "=s60" "=s240" (default "" contractImage).

Definition openseaAsset (E : Env)
  (acc : list CollectibleDetails * jsobj CollectibleDetails) (a : Asset)
  : list CollectibleDetails * jsobj CollectibleDetails :=
  let tokenID := as_token_id a in
  let imageURL := as_image_url a in
  let name := as_name a in
  let contract := asset_contract a in
  let standard := toLowerCase <$> schema_name contract in
  let contractAddress := ac_address contract in
  let contractName := ac_name contract in
  (* the destructuring default applies to undefined; null is then
     replaced by '' at both uses *)
  let contractImage := ac_image_url contract in
  match standard with
  | Some standard =>
      if includes standard (SUPPORTED_NFT_STANDARDS E) then
        let collectible :=
          {| contractAddress := contractAddress;
             tokenID := tokenID;
             options :=
               [ ("standard", JStr standard);
                 ("description", as_description a);
                 ("image", js_or imageURL (JStr (upgradeThumbnail contractImage)));
                 ("name", js_or name (JStr (template contractName +:+ "#" +:+ tokenID)));
                 ("contractAddress", JStr contractAddress);
                 ("contractName", contractName);
                 ("contractSymbol", ac_symbol contract);
                 ("contractImage", js_or (JStr (upgradeThumbnail contractImage)) imageURL);
                 ("contractSupply", total_supply contract);
                 ("contractDescription", ac_description contract) ] |} in
        (acc.1 ++ [collectible], oset acc.2 (collectibleIndex collectible) collectible)
      else acc
  | None => acc
  end.

Definition detectCollectiblesFromOpensea (E : Env) (C : Controller)
  : Controller * (list CollectibleDetails * jsobj CollectibleDetails) :=
  if negb (isMainnet E) && negb (isMatic E) then (C, ([], []))
  else
    let selectedAddress := selectedAddress C in
    if String.eqb selectedAddress "" then (C, ([], []))
    else
      let C :=
        set_assetController C
          (AssetController.setSelectedAddress (store_env E) (assetController C)
             selectedAddress) in
      let apiCollectibles := getOwnerCollectibles_opensea E C in
      (C, fold_left (openseaAsset E) apiCollectibles ([], [])).

(** *** The per-cycle merge *)

(** [deepmerge(x, y)] of the npm package [deepmerge], on two collectibles.
    The result starts with the properties of [x]; then every property of
    [y] is assigned: merged recursively when both values are objects (the
    [options]), and the value of [y] otherwise, whatever it is (a scalar,
    also [null] or [undefined]). *)
Definition deepmerge_options (target source : jsobj JsVal) : jsobj JsVal :=
  fold_left (λ destination kv, oset destination kv.1 kv.2) source target.

Definition deepmerge (x y : CollectibleDetails) : CollectibleDetails :=
  {| contractAddress := contractAddress y;
     tokenID := tokenID y;
     options := deepmerge_options (options x) (options y) |}.

(** The loop over [Object.keys(openseaCollectiblesMap)]. A value stored
    in one of the maps is an object, so [!customCollectiblesMap[x]] and
    [if (covalentCollectible)] test the presence of the key. *)
Definition pushOpensea
  (customCollectiblesMap openseaCollectiblesMap covalentCollectiblesMap
     : jsobj CollectibleDetails)
  (finalArr : list CollectibleDetails) : list CollectibleDetails :=
  fold_left
    (λ finalArr x,
       match oget customCollectiblesMap x, oget openseaCollectiblesMap x with
       | None, Some openseaCollectible =>
           match oget covalentCollectiblesMap x with
           | Some covalentCollectible =>
               finalArr ++ [deepmerge covalentCollectible openseaCollectible]
           | None => finalArr ++ [openseaCollectible]
           end
       | _, _ => finalArr
       end)
    (okeys openseaCollectiblesMap) finalArr.

(** The loop over [Object.keys(covalentCollectiblesMap)], which the
    source has twice. *)
Definition pushCovalent
  (customCollectiblesMap covalentCollectiblesMap : jsobj CollectibleDetails)
  (finalArr : list CollectibleDetails) : list CollectibleDetails :=
  fold_left
    (λ finalArr x,
       match oget customCollectiblesMap x, oget covalentCollectiblesMap x with
       | None, Some covalentCollectible => finalArr ++ [covalentCollectible]
       | _, _ => finalArr
       end)
    (okeys covalentCollectiblesMap) finalArr.

(** What the two loops push, as lists: one element per key of the
    iterated map that the custom map lacks. *)
Definition openseaPart
  (customCollectiblesMap openseaCollectiblesMap covalentCollectiblesMap
     : jsobj CollectibleDetails) : list CollectibleDetails :=
  omap
    (λ x,
       match oget customCollectiblesMap x, oget openseaCollectiblesMap x with
       | None, Some openseaCollectible =>
           Some (match oget covalentCollectiblesMap x with
                 | Some covalentCollectible => deepmerge covalentCollectible openseaCollectible
                 | None => openseaCollectible
                 end)
       | _, _ => None
       end)
    (okeys openseaCollectiblesMap).

Definition covalentPart
  (customCollectiblesMap covalentCollectiblesMap : jsobj CollectibleDetails)
  : list CollectibleDetails :=
  omap
    (λ x,
       match oget customCollectiblesMap x, oget covalentCollectiblesMap x with
       | None, Some covalentCollectible => Some covalentCollectible
       | _, _ => None
       end)
    (okeys covalentCollectiblesMap).

(** The part of [finalArr] that comes from the providers. *)
Definition fromProviders (E : Env)
  (customCollectiblesMap openseaCollectiblesMap covalentCollectiblesMap
     : jsobj CollectibleDetails) : list CollectibleDetails :=
  if isMainnet E || isMatic E then
    if (0 <? length (okeys openseaCollectiblesMap))%nat
    then openseaPart customCollectiblesMap openseaCollectiblesMap covalentCollectiblesMap
    else covalentPart customCollectiblesMap covalentCollectiblesMap
  else covalentPart customCollectiblesMap covalentCollectiblesMap.

(** The properties of the [options] of a marketplace collectible. *)
Definition openseaFields : list string :=
  [ "standard"; "description"; "image"; "name"; "contractAddress"; "contractName";
    "contractSymbol"; "contractImage"; "contractSupply"; "contractDescription" ].

(** Every collectible of the marketplace map sits under its own key and
    carries exactly the ten marketplace properties. *)
Definition marketplace_map (m : jsobj CollectibleDetails) : Prop :=
  AssetController.keyed collectibleIndex m
  ∧ ∀ k v, (k, v) ∈ m → okeys (options v) = openseaFields.

(** What one cycle has when it reaches the store. *)
Record Cycle : Type := {
  customNftArr : list CollectibleDetails;
  customCollectiblesMap : jsobj CollectibleDetails;
  openseaCollectiblesMap : jsobj CollectibleDetails;
  covalentCollectiblesMap : jsobj CollectibleDetails;
  finalArr : list CollectibleDetails;   (* the argument of [addCollectibles] *)
}.

(** [detectCollectibles], up to the call of the store: the controller as
    it is then, and the sets of the cycle; the second component is [None]
    when the function throws before ([_preferencesStore] unset, or
    [customNfts] undefined for a non-empty address). The two adapters
    that [Promise.all] runs together are run one after the other: what
    they share is the call [setSelectedAddress(selectedAddress)], with
    the same argument. *)
Definition collect (E : Env) (C : Controller) : Controller * option Cycle :=
  let currentNetwork := getNetworkNameFromNetworkCode E in
  let C := set_currentNetwork C (Some currentNetwork) in
  match _preferencesStore C with
  | None => (C, None)
  | Some state =>
      let customNfts := state !! selectedAddress C in
      match getCustomNfts E C customNfts false with
      | None => (C, None)
      | Some (C, (customNftArr, customCollectiblesMap)) =>
          let finalArr := customNftArr in
          if isMainnet E || isMatic E then
            let '(C, (_, openseaCollectiblesMap)) := detectCollectiblesFromOpensea E C in
            let '(C, (_, covalentCollectiblesMap)) :=
              detectCollectiblesFromCovalent E C currentNetwork in
            let openseaIndexes := okeys openseaCollectiblesMap in
            let finalArr :=
              if (0 <? length openseaIndexes)%nat
              then pushOpensea customCollectiblesMap openseaCollectiblesMap
                     covalentCollectiblesMap finalArr
              else pushCovalent customCollectiblesMap covalentCollectiblesMap finalArr in
            (C, Some {| customNftArr := customNftArr;
                        customCollectiblesMap := customCollectiblesMap;
                        openseaCollectiblesMap := openseaCollectiblesMap;
                        covalentCollectiblesMap := covalentCollectiblesMap;
                        finalArr := finalArr |})
          else
            let '(C, (_, covalentCollectiblesMap)) :=
              detectCollectiblesFromCovalent E C currentNetwork in
            let finalArr :=
              pushCovalent customCollectiblesMap covalentCollectiblesMap finalArr in
            (C, Some {| customNftArr := customNftArr;
                        customCollectiblesMap := customCollectiblesMap;
                        openseaCollectiblesMap := [];
                        covalentCollectiblesMap := covalentCollectiblesMap;
                        finalArr := finalArr |})
      end
  end.

Definition detectCollectibles (E : Env) (C : Controller) : Controller :=
  match collect E C with
  | (C, Some cycle) =>
      set_assetController C
        (AssetController.addCollectibles (store_env E) (assetController C)
           (finalArr cycle) false)
  | (C, None) => C
  end.

Definition detectAssets (E : Env) (C : Controller) : Controller :=
  match supportedNetwork E (getNetworkNameFromNetworkCode E) with
  | Some _ => detectCollectibles E C
  | None => C
  end.

(** *** The scheduler *)

Definition DEFAULT_INTERVAL : Z := 60000.

(** The timers of the host: the identifiers of the repeating timers that
    are armed, and the next identifier [setInterval] hands out. *)
Record Timers : Type := {
  live : gset nat;
  next_id : nat;
}.

Definition clearInterval (W : Timers) (h : nat) : Timers :=
  {| live := live W ∖ {[ h ]}; next_id := next_id W |}.

Definition setInterval (W : Timers) : nat * Timers :=
  (next_id W, {| live := {[ next_id W ]} ∪ live W; next_id := S (next_id W) |}).

(** [set interval(interval)]; a number is falsy when it is 0. *)
Definition set_interval (E : Env) (C : Controller) (W : Timers) (interval : Z)
  : Controller * Timers :=
  let W := match _handle C with Some h => clearInterval W h | None => W end in
  if (interval =? 0)%Z then (C, W)
  else if isMain E then
    let '(h, W) := setInterval W in (set_handle C (Some h), W)
  else (C, W).

(** [detectAssets()] is started without [await]; the cycle and the
    assignment of the interval touch disjoint fields, so the cycle is run
    here before the interval is assigned. *)
Definition restartAssetDetection (E : Env) (C : Controller) (W : Timers)
  : Controller * Timers :=
  if String.eqb (selectedAddress C) "" then (C, W)
  else
    let C := detectAssets E C in
    set_interval E C W DEFAULT_INTERVAL.

Definition startAssetDetection (E : Env) (C : Controller) (W : Timers)
  (selectedAddress : string) : Controller * Timers :=
  restartAssetDetection E (set_selectedAddress C selectedAddress) W.

Definition stopAssetDetection (C : Controller) : Controller :=
  set_selectedAddress C "".

(** The callback of an armed timer; [None] when the timer [h] is not
    armed, so that nothing fires. *)
Definition tick (E : Env) (C : Controller) (W : Timers) (h : nat) : option Controller :=
  if bool_decide (h ∈ live W) then Some (detectAssets E C) else None.

(** The constructor, for the options it reads. *)
Record Options : Type := {
  opt_interval : Z;
  opt_selectedAddress : string;
  opt_preferencesStore : option (gmap string (list CustomNft));
  opt_assetController : AssetController.Controller;
}.

Definition no_timers : Timers := {| live := ∅; next_id := 1 |}.

Definition construct (E : Env) (W : Timers) (o : Options) : Controller * Timers :=
  let this :=
    {| selectedAddress := ""; currentNetwork := None; selectedCustomNfts := [];
       _preferencesStore := None; _handle := None;
       assetController := opt_assetController o |} in
  let '(this, W) :=
    set_interval E this W
      (if (opt_interval o =? 0)%Z then DEFAULT_INTERVAL else opt_interval o) in
  ({| selectedAddress := opt_selectedAddress o;
      currentNetwork := None;
      selectedCustomNfts := [];
      _preferencesStore := opt_preferencesStore o;
      _handle := _handle this;
      assetController := assetController this |}, W).

(** The controller and the timers after any sequence of calls and timer
    callbacks. *)
Inductive sched_step : Controller * Timers → Controller * Timers → Prop :=
  | sched_interval E C W interval :
      sched_step (C, W) (set_interval E C W interval)
  | sched_start E C W address :
      sched_step (C, W) (startAssetDetection E C W address)
  | sched_restart E C W :
      sched_step (C, W) (restartAssetDetection E C W)
  | sched_stop C W :
      sched_step (C, W) (stopAssetDetection C, W)
  | sched_tick E C W h C' :
      tick E C W h = Some C' → sched_step (C, W) (C', W).

Inductive sched_reachable : Controller * Timers → Prop :=
  | sched_new E o : sched_reachable (construct E no_timers o)
  | sched_next s s' : sched_reachable s → sched_step s s' → sched_reachable s'.

(** The armed timers are at most the one [_handle] names, and no
    identifier handed out so far is one that [setInterval] hands out
    next. *)
Definition one_timer (s : Controller * Timers) : Prop :=
  (∀ h, h ∈ live s.2 → _handle s.1 = Some h)
  ∧ (∀ h, _handle s.1 = Some h → h < next_id s.2).

End AssetsDetection.

(** ** Further definitions

    The functions of the two files that the sections above leave out, and
    the predicates that properties of the code are stated with. *)

Module StoreMore.
Import AssetController.

(** The test [if (tokenID && contractAddress)] of the first loop of
    [addCollectibles]. *)
Definition accepted (it : CollectibleDetails) : bool :=
  negb (String.eqb (tokenID it) "") && negb (String.eqb (contractAddress it) "").

(** A collectible that passes the test of the second loop and whose index
    is the one [_normalizeCollectibleDetails] computes from its fields. *)
Definition sound (c : Collectible) : Prop :=
  truthy (cl_name c) = true ∧ truthy (cl_standard c) = true
  ∧ truthy (cl_tokenBalance c) = true
  ∧ cl_collectibleIndex c = cl_address c +:+ "_" +:+ cl_tokenId c.

(** Every collectible of the current view and of every scope is [sound]. *)
Definition collectibles_sound (st : State) : Prop :=
  Forall sound (collectibles st)
  ∧ ∀ address byNetwork network l,
      allCollectibles st !! address = Some byNetwork →
      byNetwork !! network = Some l → Forall sound l.

(** [toChecksumAddress] does not throw on what [isAddress] accepts, as in
    web3-utils. *)
Definition checksum_defined (E : Env) : Prop :=
  ∀ a, isAddress E a = true → is_Some (toChecksumAddress E a).

(** The same collaborators with another metadata API. *)
Definition with_getNftMetadata (E : Env) (api : string → option (list Item)) : Env :=
  {| networkType := networkType E;
     NFT_SUPPORTED_NETWORKS := NFT_SUPPORTED_NETWORKS E;
     isAddress := isAddress E;
     toChecksumAddress := toChecksumAddress E;
     checkNftStandard := checkNftStandard E;
     getAssetName := getAssetName E;
     getAssetSymbol := getAssetSymbol E;
     getErc1155Balance := getErc1155Balance E;
     contractTokenURI := contractTokenURI E;
     get := get E;
     getNftMetadata := api |}.

(** What [addCollectibles] passes to [_normalizeContractDetails] for an
    item. *)
Definition contractDetailsOf (it : CollectibleDetails) : ContractDetails :=
  {| cd_contractAddress := contractAddress it;
     cd_contractName := oread (options it) "contractName";
     cd_contractSymbol := oread (options it) "contractSymbol";
     cd_standard := oread (options it) "standard";
     cd_contractImage := oread (options it) "contractImage";
     cd_contractDescription := oread (options it) "contractDescription" |}.

(** What [addCollectibles] passes to [_normalizeCollectibleDetails] for
    an item, and the index key of the item in the first loop. *)
Definition collectibleArgsOf (it : CollectibleDetails) : CollectibleArgs :=
  {| ca_address := contractAddress it;
     ca_name := oread (options it) "name";
     ca_image := oread (options it) "image";
     ca_description := oread (options it) "description";
     ca_standard := oread (options it) "standard";
     ca_tokenBalance := oread (options it) "tokenBalance";
     ca_tokenID := tokenID it |}.

Definition itemIndex (it : CollectibleDetails) : string :=
  contractAddress it +:+ "_" +:+ tokenID it.

(** An item that needs no lookup: it has a name, an image, a recognized
    standard and a balance. *)
Definition complete (it : CollectibleDetails) : bool :=
  truthy (oread (options it) "name") && truthy (oread (options it) "image")
  && truthy (oread (options it) "standard")
  && supported_has (oread (options it) "standard")
  && truthy (oread (options it) "tokenBalance").

(** The collectible that a complete item is stored as, [address] being
    its contract address after normalization. *)
Definition stored_form (address : string) (it : CollectibleDetails) : Collectible :=
  {| cl_address := address; cl_tokenId := tokenID it;
     cl_name := oread (options it) "name";
     cl_image := oread (options it) "image";
     cl_description := oread (options it) "description";
     cl_standard := oread (options it) "standard";
     cl_tokenBalance := oread (options it) "tokenBalance";
     cl_collectibleIndex := address +:+ "_" +:+ tokenID it |}.

End StoreMore.

Module DetectionMore.
Import AssetsDetection.

(** The state of the preferences store as the listener reads it:
    [state.selectedAddress] and [state[address]]; a user state without
    [customNfts] is [Some None]. *)
Record PreferencesState : Type := {
  ps_selectedAddress : string;
  ps_users : gmap string (option (list CustomNft));
}.

(** The listener that [set preferencesStore] subscribes.
    [lodash.isequal] on two arrays of strings is their equality. The call
    of [getCustomNfts] is not awaited; a throw of the listener or a
    rejection of that call leaves the controller as it is then. *)
Definition onPreferencesChange (E : Env) (C : Controller) (state : PreferencesState)
  : Controller :=
  let selectedAddress := ps_selectedAddress state in
  if String.eqb selectedAddress "" then C
  else
    match ps_users state !! selectedAddress with
    | None => C     (* destructuring [undefined] throws *)
    | Some userState =>
        let customNfts := default [] userState in
        if bool_decide (selectedCustomNfts C = map nft_address customNfts) then C
        else
          match getCustomNfts E C (Some customNfts) true with
          | Some (C, _) => C
          | None => C
          end
    end.

(** What the contract-indexer adapter reads off one token: its image
    with the placeholder as fallback, and its standard. *)
Definition tokenImage (nft : NftData) : JsVal :=
  js_or (default JUndefined (ed_image <$> external_data nft))
        (JStr "/images/nft-placeholder.svg").

Definition tokenStandard (nft : NftData) : string :=
  if includes "erc1155" (supports_erc nft)
  then CONTRACT_TYPE_ERC1155 else CONTRACT_TYPE_ERC721.

(** The fields of the collectible that the contract-indexer adapter
    builds for the token [nft] of the record [item], [logo] being the
    fallback logo of the record. *)
Definition token_fields (item : Item) (nft : NftData) (logo : JsVal)
  (c : CollectibleDetails) : Prop :=
  contractAddress c = contract_address item
  ∧ tokenID c = token_id nft
  ∧ oread (options c) "standard" = JStr (tokenStandard nft)
  ∧ oread (options c) "image" = tokenImage nft
  ∧ oread (options c) "contractFallbackLogo" = logo
  ∧ oread (options c) "contractImage" = logo_url item
  ∧ oread (options c) "contractSymbol" = contract_ticker_symbol item
  ∧ oread (options c) "contractDescription" = JStr ""
  ∧ oread (options c) "tokenBalance" = token_balance nft.

(** The fields of the controller that identify it and its timer. *)
Definition same_identity (C C' : Controller) : Prop :=
  selectedAddress C' = selectedAddress C
  ∧ _handle C' = _handle C
  ∧ _preferencesStore C' = _preferencesStore C.

(** A cycle in which every set is empty. *)
Definition empty_cycle : Cycle :=
  {| customNftArr := []; customCollectiblesMap := []; openseaCollectiblesMap := [];
     covalentCollectiblesMap := []; finalArr := [] |}.

End DetectionMore.

(** ** The RPC middleware: formatting a pending transaction *)

Module RpcMiddleware.

Record TxParams : Type := {
  tp_to : JsVal;
  tp_data : JsVal;
  tp_nonce : JsVal;
  tp_gas : JsVal;
  tp_from : JsVal;
  tp_value : JsVal;
  tp_gasPrice : JsVal;
  tp_accessList : JsVal;
  tp_maxFeePerGas : JsVal;
  tp_maxPriorityFeePerGas : JsVal;
}.

Record TxReceipt : Type := {
  blockHash : JsVal;
  blockNumber : JsVal;
  transactionIndex : JsVal;
}.

Record TxMeta : Type := {
  tm_r : JsVal;
  tm_s : JsVal;
  tm_v : JsVal;
  tm_hash : JsVal;
  txReceipt : option TxReceipt;    (* [None]: null or missing *)
  txParams : TxParams;
}.

(** The constants [TRANSACTION_ENVELOPE_TYPES.FEE_MARKET] and [.LEGACY]
    of [utils/enums], which is not among the sources. *)
Record EnvelopeTypes : Type := {
  FEE_MARKET : JsVal;
  LEGACY : JsVal;
}.

(** [receipt?.field || null]. *)
Definition receiptField (receipt : option TxReceipt) (field : TxReceipt → JsVal) : JsVal :=
  js_or (default JUndefined (field <$> receipt)) JNull.

(** The object literal, then the assignments of one of the two branches. *)
Definition formatTxMetaForRpcResult (T : EnvelopeTypes) (txMeta : TxMeta)
  : jsobj JsVal :=
  let p := txParams txMeta in
  let formattedTxMeta :=
    [ ("v", tm_v txMeta); ("r", tm_r txMeta); ("s", tm_s txMeta);
      ("to", tp_to p); ("gas", tp_gas p); ("from", tp_from p);
      ("hash", tm_hash txMeta); ("nonce", tp_nonce p);
      ("input", js_or (tp_data p) (JStr "0x"));
      ("value", js_or (tp_value p) (JStr "0x0"));
      ("accessList", js_or (tp_accessList p) JNull);
      ("blockHash", receiptField (txReceipt txMeta) blockHash);
      ("blockNumber", receiptField (txReceipt txMeta) blockNumber);
      ("transactionIndex", receiptField (txReceipt txMeta) transactionIndex) ] in
  if truthy (tp_maxFeePerGas p) && truthy (tp_maxPriorityFeePerGas p) then
    oset (oset (oset formattedTxMeta "maxFeePerGas" (tp_maxFeePerGas p))
            "maxPriorityFeePerGas" (tp_maxPriorityFeePerGas p))
      "type" (FEE_MARKET T)
  else
    oset (oset formattedTxMeta "gasPrice" (tp_gasPrice p)) "type" (LEGACY T).

(** A JSON-RPC request, and what a middleware does with it: it passes it
    on with [next()], sets [response.result], or throws. *)
Record Request : Type := {
  method : string;
  params : list JsVal;
}.

Inductive Handled (R : Type) : Type :=
  | Next
  | Result (result : R)
  | Throws.
Arguments Next {R}.
Arguments Result {R} _.
Arguments Throws {R}.

(** [createPendingTxMiddleware({ getPendingTransactionByHash })]. *)
Definition createPendingTxMiddleware (T : EnvelopeTypes)
  (getPendingTransactionByHash : JsVal → option TxMeta) (request : Request)
  : Handled (jsobj JsVal) :=
  if negb (String.eqb (method request) "eth_getTransactionByHash") then Next
  else
    let hash := default JUndefined (head (params request)) in
    match getPendingTransactionByHash hash with
    | None => Next
    | Some txMeta => Result (formatTxMetaForRpcResult T txMeta)
    end.

(** [createPendingNonceMiddleware({ getPendingNonce })]; [None] is a
    rejection of [getPendingNonce]. *)
Definition createPendingNonceMiddleware (getPendingNonce : JsVal → option JsVal)
  (request : Request) : Handled JsVal :=
  if negb (String.eqb (method request) "eth_getTransactionCount") then Next
  else
    let address := default JUndefined (params request !! 0) in
    let blockReference := default JUndefined (params request !! 1) in
    if negb (strict_eq blockReference (JStr "pending")) then Next
    else
      match getPendingNonce address with
      | Some nonce => Result nonce
      | None => Throws
      end.

(** [createRequestAccountsMiddleware({ getAccounts })]; the outer [None]
    is a missing [getAccounts], the inner one a rejection. *)
Definition createRequestAccountsMiddleware {Accounts : Type}
  (getAccounts : option (Request → option Accounts)) (request : Request)
  : Handled Accounts :=
  if negb (String.eqb (method request) "eth_requestAccounts") then Next
  else
    match getAccounts with
    | None => Throws
    | Some getAccounts =>
        match getAccounts request with
        | Some accounts => Result accounts
        | None => Throws
        end
    end.

End RpcMiddleware.

(** ** Sample data

    A small world used to run the definitions on concrete inputs. *)

Module Sample.
Import AssetController.

(** A chain on which every contract answers the standard probe with
    [erc1155] and every ERC1155 balance is 5; names, symbols and token
    URIs are not served, and no string is taken for a hex address. *)
Definition chain : Env :=
  {| networkType := "mainnet";
     NFT_SUPPORTED_NETWORKS := λ n, if String.eqb n "mainnet" then Some "1" else None;
     isAddress := λ _, false;
     toChecksumAddress := λ a, Some a;
     checkNftStandard := λ _, Some (JStr CONTRACT_TYPE_ERC1155);
     getAssetName := λ _, None;
     getAssetSymbol := λ _, None;
     getErc1155Balance := λ _ _ _, Some (JNum 5);
     contractTokenURI := λ _ _ _, None;
     get := λ _, None;
     getNftMetadata := λ _, None |}.

Definition fresh : Controller :=
  {| store := initStateObject; selectedAddress := "0xuser" |}.

Definition details (contract token name standard : string) (balance : JsVal)
  : CollectibleDetails :=
  {| contractAddress := contract; tokenID := token;
     options :=
       [ ("contractName", JStr "Cats"); ("contractSymbol", JStr "CAT");
         ("standard", JStr standard); ("name", JStr name);
         ("image", JStr "https://img/1.png"); ("tokenBalance", balance) ] |}.

Definition cat1 : CollectibleDetails := details "0xaa" "1" "Cat#1" "erc721" (JNum 1).
Definition dog2 : CollectibleDetails := details "0xbb" "2" "Dog#2" "erc721" (JNum 1).

(** An ERC1155 token that arrives complete except for its balance, as the
    marketplace adapter delivers every token. *)
Definition multi7 : CollectibleDetails := details "0xcc" "7" "Multi#7" "erc1155" JUndefined.

Definition multi7_args : CollectibleArgs :=
  {| ca_address := "0xcc"; ca_name := JStr "Multi#7"; ca_image := JStr "https://img/1.png";
     ca_description := JUndefined; ca_standard := JStr CONTRACT_TYPE_ERC1155;
     ca_tokenBalance := JUndefined; ca_tokenID := "7" |}.

Definition stored_cat1 : Collectible :=
  {| cl_address := "0xaa"; cl_tokenId := "1"; cl_name := JStr "Cat#1";
     cl_image := JStr "https://img/1.png"; cl_description := JUndefined;
     cl_standard := JStr "erc721"; cl_tokenBalance := JNum 1;
     cl_collectibleIndex := "0xaa_1" |}.

Definition stored_dog2 : Collectible :=
  {| cl_address := "0xbb"; cl_tokenId := "2"; cl_name := JStr "Dog#2";
     cl_image := JStr "https://img/1.png"; cl_description := JUndefined;
     cl_standard := JStr "erc721"; cl_tokenBalance := JNum 1;
     cl_collectibleIndex := "0xbb_2" |}.

Definition contract_of (address : string) : Contract :=
  {| ct_standard := JStr "erc721"; ct_address := JStr address; ct_description := JStr "";
     ct_logo := JUndefined; ct_name := JStr "Cats"; ct_symbol := JStr "CAT" |}.

(** A record of the contract-indexer response with two tokens, the first
    ERC721 and the second ERC1155. *)
Definition token_a : NftData :=
  {| token_id := "1"; token_balance := JStr "1"; external_data := None;
     supports_erc := ["erc20"; "erc721"] |}.

Definition token_b : NftData :=
  {| token_id := "2"; token_balance := JStr "3"; external_data := None;
     supports_erc := ["erc20"; "erc1155"] |}.

Definition two_tokens : Item :=
  {| type := JStr "nft"; contract_name := JStr "Cats"; contract_ticker_symbol := JStr "CAT";
     contract_address := "0xAA"; logo_url := JNull;
     nft_data := Some [token_a; token_b] |}.

(** The world of the detection controller on mainnet. The user owns
    every token except token 3 of contract [0xcc], whose balance is 0. *)
Import AssetsDetection.

Definition world : AssetsDetection.Env :=
  {| store_env := chain;
     MAINNET := "mainnet"; MATIC := "matic"; BSC_MAINNET := "bsc_mainnet";
     AssetsDetection.SUPPORTED_NFT_STANDARDS := ["erc721"; "erc1155"];
     isMain := true;
     fetchNftBalance :=
       λ address tokenId _ _,
         if String.eqb address "0xCC" && String.eqb tokenId "3"
         then Some (JNum 0) else Some (JNum 1);
     AssetsDetection.getNftMetadata := λ _ _ _ _, None;
     getCovalentNfts := λ _, None;
     getOpenSeaCollectibles := λ _, None |}.

Definition custom (address id name : string) : CustomNft :=
  {| nft_address := address; nft_id := id; nft_contract_standard := "ERC721";
     network := "mainnet"; description := JStr "a pet";
     nft_image_link := JStr "https://img/1.png"; nft_name := JStr name |}.

Definition owned_custom : CustomNft := custom "0xAA" "1" "Cat".
Definition sold_custom : CustomNft := custom "0xCC" "3" "Fox".
Definition other_custom : CustomNft := custom "0xDD" "4" "Owl".

Definition custom_collectible (address id name : string) : CollectibleDetails :=
  {| contractAddress := address; tokenID := id;
     options :=
       [ ("contractName", JStr name); ("contractSymbol", JStr name);
         ("contractImage", JStr "https://img/1.png");
         ("contractFallbackLogo", JStr "https://img/1.png");
         ("standard", JStr "erc721"); ("contractDescription", JStr "a pet");
         ("description", JStr "a pet"); ("image", JStr "https://img/1.png");
         ("name", JStr (name +:+ "#" +:+ id)); ("tokenBalance", JNum 1) ] |}.

Definition owned_collectible : CollectibleDetails := custom_collectible "0xAA" "1" "Cat".
Definition other_collectible : CollectibleDetails := custom_collectible "0xDD" "4" "Owl".

Definition detector : AssetsDetection.Controller :=
  {| AssetsDetection.selectedAddress := "0xuser"; currentNetwork := None;
     selectedCustomNfts := [];
     _preferencesStore :=
       Some {[ "0xuser" := [owned_custom; sold_custom; other_custom] ]};
     _handle := None; assetController := fresh |}.

(** The same world with both providers answering. The marketplace
    returns token 1 of [0xAA] (which is also a custom entry) and token 7 of
    [0xBB] with an empty description; the contract indexer returns token 7
    of [0xBB] with a description, token 9 of [0xEE] and token 1 of [0xAA]. *)
Definition asset (address id : string) (description : JsVal) : Asset :=
  {| as_token_id := id; as_image_url := JStr "https://market/img.png";
     as_name := JStr "Item"; as_description := description;
     asset_contract :=
       {| schema_name := Some "ERC721"; ac_address := address; ac_name := JStr "Market";
          ac_symbol := JStr "MKT"; ac_image_url := Some "https://market/logo=s60";
          total_supply := JNull; ac_description := JNull |} |}.

Definition record (address id : string) (description : JsVal) : Item :=
  {| type := JStr "nft"; contract_name := JStr "Indexed"; contract_ticker_symbol := JStr "IDX";
     contract_address := address; logo_url := JNull;
     nft_data :=
       Some [ {| token_id := id; token_balance := JStr "1";
                 external_data :=
                   Some {| ed_name := JStr "Item"; ed_description := description;
                           ed_image := JStr "https://indexer/img.png" |};
                 supports_erc := ["erc20"; "erc721"] |} ] |}.

Definition market : AssetsDetection.Env :=
  {| store_env := chain;
     MAINNET := "mainnet"; MATIC := "matic"; BSC_MAINNET := "bsc_mainnet";
     AssetsDetection.SUPPORTED_NFT_STANDARDS := ["erc721"; "erc1155"];
     isMain := true;
     fetchNftBalance :=
       λ address tokenId _ _,
         if String.eqb address "0xCC" && String.eqb tokenId "3"
         then Some (JNum 0) else Some (JNum 1);
     AssetsDetection.getNftMetadata := λ _ _ _ _, None;
     getCovalentNfts :=
       λ _, Some [ record "0xBB" "7" (JStr "from the indexer");
                   record "0xEE" "9" (JStr "only the indexer has it");
                   record "0xAA" "1" JNull ];
     getOpenSeaCollectibles :=
       λ _, Some {| assets := [asset "0xAA" "1" JNull; asset "0xBB" "7" JNull];
                    results := [] |} |}.

(** The detection controller as its constructor leaves it, in the main
    frame, with the default interval. *)
Definition constructed : AssetsDetection.Controller * Timers :=
  construct world no_timers
    {| opt_interval := 0; opt_selectedAddress := "";
       opt_preferencesStore :=
         Some {[ "0xuser" := [owned_custom; sold_custom; other_custom] ]};
       opt_assetController := fresh |}.

End Sample.

(** More sample data. *)
Module Sample2.
Import AssetController.

(** A complete ERC721 item without a balance. *)
Definition cat_args : CollectibleArgs :=
  {| ca_address := "0xaa"; ca_name := JStr "Cat#1"; ca_image := JStr "https://img/1.png";
     ca_description := JUndefined; ca_standard := JStr "erc721";
     ca_tokenBalance := JUndefined; ca_tokenID := "1" |}.

(** A chain on which no contract answers the standard probe. *)
Definition silent_chain : Env :=
  {| networkType := "mainnet";
     NFT_SUPPORTED_NETWORKS := λ n, if String.eqb n "mainnet" then Some "1" else None;
     isAddress := λ _, false;
     toChecksumAddress := λ a, Some a;
     checkNftStandard := λ _, None;
     getAssetName := λ _, Some (JStr "Cats");
     getAssetSymbol := λ _, Some (JStr "CAT");
     getErc1155Balance := λ _ _ _, Some (JNum 5);
     contractTokenURI := λ _ _ _, None;
     get := λ _, None;
     getNftMetadata := λ _, None |}.

(** A chain that serves names, symbols and token metadata, with a
    metadata API that fails. *)
Definition served_chain : Env :=
  {| networkType := "mainnet";
     NFT_SUPPORTED_NETWORKS := λ n, if String.eqb n "mainnet" then Some "1" else None;
     isAddress := λ _, false;
     toChecksumAddress := λ a, Some a;
     checkNftStandard := λ _, Some (JStr CONTRACT_TYPE_ERC721);
     getAssetName := λ _, Some (JStr "Cats");
     getAssetSymbol := λ _, Some (JStr "CAT");
     getErc1155Balance := λ _ _ _, Some (JNum 5);
     contractTokenURI := λ _ _ _, Some "https://meta/1.json";
     get := λ _, Some {| tj_image := Some (JStr "https://img/1.png");
                         tj_image_url := JUndefined; tj_name := JStr "Cat#1" |};
     getNftMetadata := λ _, None |}.

(** The same chain on a network that the table of supported networks
    does not list. *)
Definition testnet_chain : Env :=
  {| networkType := "ropsten";
     NFT_SUPPORTED_NETWORKS := NFT_SUPPORTED_NETWORKS served_chain;
     isAddress := isAddress served_chain;
     toChecksumAddress := toChecksumAddress served_chain;
     checkNftStandard := checkNftStandard served_chain;
     getAssetName := getAssetName served_chain;
     getAssetSymbol := getAssetSymbol served_chain;
     getErc1155Balance := getErc1155Balance served_chain;
     contractTokenURI := contractTokenURI served_chain;
     get := get served_chain;
     getNftMetadata := getNftMetadata served_chain |}.

(** The world of [Sample.market] with a marketplace that returns no
    asset. *)
Definition indexer_only : AssetsDetection.Env :=
  {| AssetsDetection.store_env := Sample.chain;
     AssetsDetection.MAINNET := "mainnet"; AssetsDetection.MATIC := "matic";
     AssetsDetection.BSC_MAINNET := "bsc_mainnet";
     AssetsDetection.SUPPORTED_NFT_STANDARDS := ["erc721"; "erc1155"];
     AssetsDetection.isMain := true;
     AssetsDetection.fetchNftBalance :=
       λ address tokenId _ _,
         if String.eqb address "0xCC" && String.eqb tokenId "3"
         then Some (JNum 0) else Some (JNum 1);
     AssetsDetection.getNftMetadata := λ _ _ _ _, None;
     AssetsDetection.getCovalentNfts :=
       λ _, Some [ Sample.record "0xBB" "7" (JStr "from the indexer");
                   Sample.record "0xEE" "9" (JStr "only the indexer has it");
                   Sample.record "0xAA" "1" JNull ];
     AssetsDetection.getOpenSeaCollectibles :=
       λ _, Some {| AssetsDetection.assets := []; AssetsDetection.results := [] |} |}.

End Sample2.

(** * Properties *)

(** ** Ordered objects *)

Section ObjectFacts.
Context {V : Type}.
Implicit Types (m : jsobj V) (k : string) (v : V).

Lemma oget_oset_eq m k v : oget (oset m k v) k = Some v.
Proof.
  induction m as [|[k' v'] m IH]; simpl.
  - by rewrite String.eqb_refl.
  - destruct (String.eqb k' k) eqn:Hk; simpl; rewrite Hk; [done | exact IH].
Qed.

Lemma oget_oset_ne m k k' v : k ≠ k' → oget (oset m k v) k' = oget m k'.
Proof.
  intros Hne. assert (String.eqb k k' = false) as Hf by by apply String.eqb_neq.
  induction m as [|[k0 v0] m IH]; simpl.
  - by rewrite Hf.
  - destruct (String.eqb k0 k) eqn:Hk; simpl.
    + apply String.eqb_eq in Hk. subst k0. by rewrite Hf.
    + by rewrite IH.
Qed.

Lemma oget_None_keys m k : oget m k = None ↔ k ∉ okeys m.
Proof.
  unfold okeys. induction m as [|[k' v'] m IH]; simpl.
  - split; [intros _; apply not_elem_of_nil | done].
  - rewrite not_elem_of_cons. destruct (String.eqb k' k) eqn:Hk.
    + apply String.eqb_eq in Hk. subst. split; [done | intros [? _]; done].
    + apply String.eqb_neq in Hk. rewrite IH. split; [intros ?; split; congruence | tauto].
Qed.

Lemma oget_Some_elem m k v : oget m k = Some v → (k, v) ∈ m.
Proof.
  induction m as [|[k' v'] m IH]; simpl; [done|].
  destruct (String.eqb k' k) eqn:Hk.
  - apply String.eqb_eq in Hk. intros [= ->]. subst. apply list_elem_of_here.
  - intros H. apply list_elem_of_further. auto.
Qed.

Lemma oget_elem_NoDup m k v : NoDup (okeys m) → (k, v) ∈ m → oget m k = Some v.
Proof.
  unfold okeys. induction m as [|[k' v'] m IH]; simpl.
  - intros _ H. by apply elem_of_nil in H.
  - rewrite NoDup_cons. intros [Hnin Hnd] Hin.
    apply elem_of_cons in Hin as [[= -> ->] | Hin].
    + by rewrite String.eqb_refl.
    + destruct (String.eqb k' k) eqn:Hk.
      * apply String.eqb_eq in Hk. subst k'. exfalso. apply Hnin.
        apply list_elem_of_fmap. by exists (k, v).
      * auto.
Qed.

Lemma oset_absent m k v : oget m k = None → oset m k v = m ++ [(k, v)].
Proof.
  induction m as [|[k' v'] m IH]; simpl; [done|].
  destruct (String.eqb k' k); [done|]. intros H. by rewrite IH.
Qed.

Lemma okeys_oset_present m k v : is_Some (oget m k) → okeys (oset m k v) = okeys m.
Proof.
  unfold okeys. induction m as [|[k' v'] m IH]; simpl.
  - by intros [? ?].
  - destruct (String.eqb k' k); simpl; [done|]. intros H. by rewrite IH.
Qed.

Lemma okeys_oset_NoDup m k v : NoDup (okeys m) → NoDup (okeys (oset m k v)).
Proof.
  intros Hnd. destruct (oget m k) eqn:Hg.
  - by rewrite okeys_oset_present.
  - rewrite oset_absent by done. unfold okeys in *. rewrite fmap_app. simpl.
    apply NoDup_app. split; [done|]. split; [|apply NoDup_singleton].
    intros x Hx Hx'. apply list_elem_of_singleton in Hx'. subst x.
    by apply oget_None_keys in Hg.
Qed.
End ObjectFacts.

(** ** Keyed merge of a stored list with a new list *)

Section MergeFacts.
Import AssetController.
Context {V : Type} (key : V → string).
Implicit Types (l old new : list V) (acc : jsobj V).

Local Abbreviation build := (build key).
Local Abbreviation keyed := (keyed key).
Local Abbreviation merge_by := (merge_by key).
Local Abbreviation kept_old := (kept_old key).

Lemma build_get_None acc l k :
  oget (build acc l) k = None ↔ oget acc k = None ∧ k ∉ map key l.
Proof.
  revert acc. induction l as [|x l IH]; intros acc; simpl.
  - split; [intros ?; split; [done | apply not_elem_of_nil] | tauto].
  - rewrite IH, not_elem_of_cons. destruct (decide (key x = k)) as [<- | Hne].
    + rewrite oget_oset_eq. split; [intros [? ?]; done | intros [_ [? _]]; done].
    + rewrite oget_oset_ne by done. split; [intros [? ?]; repeat split; congruence | tauto].
Qed.

Lemma build_NoDup acc l : NoDup (okeys acc) → NoDup (okeys (build acc l)).
Proof.
  revert acc. induction l as [|x l IH]; intros acc H; simpl; [done|].
  apply IH. by apply okeys_oset_NoDup.
Qed.

Lemma oset_elem acc k v k' v' :
  (k', v') ∈ oset acc k v → (k', v') ∈ acc ∨ (k' = k ∧ v' = v).
Proof.
  induction acc as [|[k0 v0] acc IH]; simpl.
  - intros H. apply list_elem_of_singleton in H. right. by inversion H.
  - destruct (String.eqb k0 k) eqn:Hk.
    + apply String.eqb_eq in Hk. subst k0. intros H.
      apply elem_of_cons in H as [[= -> ->] | H]; [by right | left; by apply list_elem_of_further].
    + intros H. apply elem_of_cons in H as [[= -> ->] | H]; [left; apply list_elem_of_here|].
      destruct (IH H) as [? | ?]; [left; by apply list_elem_of_further | by right].
Qed.

Lemma build_elem acc l k v :
  (k, v) ∈ build acc l → (k, v) ∈ acc ∨ (v ∈ l ∧ key v = k).
Proof.
  revert acc. induction l as [|x l IH]; intros acc; simpl; [by left|].
  intros H. destruct (IH _ H) as [H1 | [H1 H2]].
  - apply oset_elem in H1 as [? | [-> ->]]; [by left | right; split; [apply list_elem_of_here | done]].
  - right. split; [by apply list_elem_of_further | done].
Qed.

Lemma build_keyed acc l : keyed acc → keyed (build acc l).
Proof.
  intros Hk k v H. apply build_elem in H as [H | [_ H]]; [by apply Hk | done].
Qed.

Lemma build_fresh acc l :
  NoDup (map key l) → (∀ x, x ∈ l → oget acc (key x) = None) →
  build acc l = acc ++ map (λ v, (key v, v)) l.
Proof.
  revert acc. induction l as [|x l IH]; intros acc Hnd Hfresh; simpl.
  - by rewrite app_nil_r.
  - simpl in Hnd. apply NoDup_cons in Hnd as [Hx Hnd].
    rewrite oset_absent by (apply Hfresh, list_elem_of_here).
    rewrite IH; [by rewrite <- app_assoc | done |].
    intros y Hy. apply oget_None_keys. unfold okeys. rewrite fmap_app. simpl.
    rewrite elem_of_app, list_elem_of_singleton. intros [H | H].
    + revert H. apply oget_None_keys, Hfresh. by apply list_elem_of_further.
    + apply Hx. rewrite <- H. by apply list_elem_of_fmap_2.
Qed.

Lemma push_missing_gen (oldMap newMap sub : jsobj V) (arr : list V) :
  (∀ k v, (k, v) ∈ sub → oget oldMap k = Some v) →
  fold_left
    (λ arr x, match oget newMap x, oget oldMap x with
              | None, Some o => arr ++ [o]
              | _, _ => arr
              end) (okeys sub) arr
  = arr ++ retained sub newMap.
Proof.
  revert arr. induction sub as [|[k v] sub IH]; intros arr Hsub; simpl.
  - by rewrite app_nil_r.
  - unfold retained. simpl. rewrite (Hsub k v) by apply list_elem_of_here.
    destruct (oget newMap k) eqn:Hn; simpl.
    + apply IH. intros ???. apply Hsub. by apply list_elem_of_further.
    + rewrite IH; [by rewrite <- app_assoc|].
      intros ???. apply Hsub. by apply list_elem_of_further.
Qed.

Lemma push_missing_spec (oldMap newMap : jsobj V) (arr : list V) :
  NoDup (okeys oldMap) → push_missing oldMap newMap arr = arr ++ retained oldMap newMap.
Proof.
  intros Hnd. apply push_missing_gen. intros k v. by apply oget_elem_NoDup.
Qed.

Lemma merge_by_spec old new :
  merge_by old new
  = new ++ retained (getObjectFromArrayBasedonKey old key)
                    (getObjectFromArrayBasedonKey new key).
Proof. apply push_missing_spec, (build_NoDup []), NoDup_nil_2. Qed.

Lemma retained_elem (sub newMap : jsobj V) v :
  v ∈ retained sub newMap ↔ ∃ k, (k, v) ∈ sub ∧ oget newMap k = None.
Proof.
  unfold retained. rewrite list_elem_of_omap. split.
  - intros [[k v'] [Hin Hf]]. simpl in Hf. exists k.
    destruct (oget newMap k); [done|]. by inversion Hf; subst.
  - intros [k [Hin Hn]]. exists (k, v). simpl. by rewrite Hn.
Qed.

Lemma retained_keys_sublist (sub newMap : jsobj V) :
  keyed sub → map key (retained sub newMap) `sublist_of` okeys sub.
Proof.
  unfold retained, okeys. induction sub as [|[k v] sub IH]; intros Hk; simpl; [done|].
  assert (keyed sub) as Hk' by (intros ???; apply Hk; by apply list_elem_of_further).
  destruct (oget newMap k); simpl.
  - apply sublist_cons. auto.
  - rewrite (Hk k v) by apply list_elem_of_here. apply sublist_skip. auto.
Qed.

Lemma keyed_nil : keyed [].
Proof. intros ?? H. by apply elem_of_nil in H. Qed.

Lemma getObject_keyed l : keyed (getObjectFromArrayBasedonKey l key).
Proof. apply (build_keyed [] l), keyed_nil. Qed.

Lemma getObject_NoDup l : NoDup (okeys (getObjectFromArrayBasedonKey l key)).
Proof. apply (build_NoDup [] l), NoDup_nil_2. Qed.

Lemma getObject_get_None l k :
  oget (getObjectFromArrayBasedonKey l key) k = None ↔ k ∉ map key l.
Proof.
  unfold getObjectFromArrayBasedonKey. fold (build [] l).
  rewrite build_get_None. simpl. tauto.
Qed.

Lemma getObject_elem l k v :
  (k, v) ∈ getObjectFromArrayBasedonKey l key → v ∈ l ∧ key v = k.
Proof.
  intros H. apply (build_elem [] l) in H as [H | H]; [by apply elem_of_nil in H | done].
Qed.

Lemma getObject_key_present l x :
  x ∈ l → ∃ v, (key x, v) ∈ getObjectFromArrayBasedonKey l key.
Proof.
  intros Hx. destruct (oget (getObjectFromArrayBasedonKey l key) (key x)) eqn:Hg.
  - eexists. by apply oget_Some_elem.
  - apply getObject_get_None in Hg. exfalso. apply Hg. by apply list_elem_of_fmap_2.
Qed.

Lemma kept_old_elem old new v :
  v ∈ kept_old old new → v ∈ old ∧ key v ∉ map key new.
Proof.
  unfold kept_old. rewrite retained_elem. intros [k [Hin Hn]].
  apply getObject_elem in Hin as [Hin <-]. split; [done|].
  by apply getObject_get_None.
Qed.

Lemma kept_old_NoDup old new : NoDup (map key (kept_old old new)).
Proof.
  eapply sublist_NoDup; [apply getObject_NoDup|].
  apply retained_keys_sublist, getObject_keyed.
Qed.

Lemma merge_by_elem old new v :
  v ∈ merge_by old new ↔ v ∈ new ∨ v ∈ kept_old old new.
Proof. rewrite merge_by_spec. apply elem_of_app. Qed.

(** No key of the old list is lost, and a key the new list lacks keeps
    an element of the old list. *)
Lemma merge_by_keeps_key old new c :
  c ∈ old →
  ∃ c', c' ∈ merge_by old new ∧ key c' = key c
        ∧ (key c ∉ map key new → c' ∈ old ∧ c' ∉ new).
Proof.
  intros Hc. destruct (decide (key c ∈ map key new)) as [Hin | Hnin].
  - apply list_elem_of_fmap in Hin as [c' [Hk Hc']]. exists c'.
    split; [apply merge_by_elem; by left|]. split; [done|].
    intros Hn. exfalso. apply Hn. rewrite Hk. by apply list_elem_of_fmap_2.
  - destruct (getObject_key_present old c Hc) as [v Hv].
    pose proof (getObject_elem _ _ _ Hv) as [Hvo Hvk].
    exists v. split.
    + apply merge_by_elem. right. apply retained_elem. exists (key c).
      split; [done|]. by apply getObject_get_None.
    + split; [done|]. intros _. split; [done|].
      intros Hvn. apply Hnin. rewrite <- Hvk. by apply list_elem_of_fmap_2.
Qed.

Lemma merge_by_NoDup old new :
  NoDup (map key new) → NoDup (map key (merge_by old new)).
Proof.
  intros Hnd. rewrite merge_by_spec, fmap_app. apply NoDup_app.
  split; [done|]. split; [|apply kept_old_NoDup].
  intros k Hk Hk'. apply list_elem_of_fmap in Hk' as [v [-> Hv]].
  by apply kept_old_elem in Hv as [_ Hv].
Qed.

Lemma retained_app (m1 m2 newMap : jsobj V) :
  retained (m1 ++ m2) newMap = retained m1 newMap ++ retained m2 newMap.
Proof. unfold retained. apply omap_app. Qed.

Lemma retained_self (newMap : jsobj V) : retained newMap newMap = [].
Proof.
  assert (∀ sub, (∀ k, k ∈ okeys sub → is_Some (oget newMap k)) →
                 retained sub newMap = []) as H.
  { unfold retained, okeys. induction sub as [|[k v] sub IH]; intros Hs; simpl; [done|].
    destruct (Hs k) as [w ->]; [apply list_elem_of_here|]. simpl.
    apply IH. intros k' Hk'. apply Hs. by apply list_elem_of_further. }
  apply H. intros k Hk. destruct (oget newMap k) eqn:Hg; [done|].
  by apply oget_None_keys in Hg.
Qed.

Lemma retained_fresh (R : list V) (newMap : jsobj V) :
  (∀ x, x ∈ R → oget newMap (key x) = None) →
  retained (map (λ v, (key v, v)) R) newMap = R.
Proof.
  unfold retained. induction R as [|x R IH]; intros HR; simpl; [done|].
  rewrite (HR x) by apply list_elem_of_here. simpl. f_equal.
  apply IH. intros y Hy. apply HR. by apply list_elem_of_further.
Qed.

(** Merging the same new list again changes nothing. *)
Lemma merge_by_idem old new :
  merge_by (merge_by old new) new = merge_by old new.
Proof.
  rewrite (merge_by_spec old new). fold (kept_old old new).
  rewrite merge_by_spec. f_equal.
  assert (∀ x, x ∈ kept_old old new →
               oget (getObjectFromArrayBasedonKey new key) (key x) = None) as Hfresh.
  { intros x Hx. apply getObject_get_None. by apply kept_old_elem in Hx as [_ ?]. }
  unfold getObjectFromArrayBasedonKey at 1. rewrite fold_left_app.
  fold (getObjectFromArrayBasedonKey new key).
  fold (build (getObjectFromArrayBasedonKey new key) (kept_old old new)).
  rewrite build_fresh by (apply kept_old_NoDup || done).
  rewrite retained_app, retained_self. simpl. by apply retained_fresh.
Qed.
End MergeFacts.

(** ** The asset controller *)

Module StoreFacts.
Import AssetController.

Lemma mergeContractArrays_merge_by old new :
  returned (mergeContractArrays old new) = merge_by byAddress old new.
Proof. reflexivity. Qed.

Lemma mergeCollectibleArrays_merge_by old new :
  returned (mergeCollectibleArrays old new) = merge_by cl_collectibleIndex old new.
Proof. reflexivity. Qed.

(** The array a merge returns is the array it was given as [newArray]. *)
Lemma mergeContractArrays_alias old new :
  newArray_after (mergeContractArrays old new) = returned (mergeContractArrays old new).
Proof. reflexivity. Qed.

Lemma mergeCollectibleArrays_alias old new :
  newArray_after (mergeCollectibleArrays old new)
  = returned (mergeCollectibleArrays old new).
Proof. reflexivity. Qed.

Lemma NoDup_fmap_eq {A B} (f : A → B) (l : list A) x y :
  NoDup (map f l) → x ∈ l → y ∈ l → f x = f y → x = y.
Proof.
  induction l as [|a l IH]; simpl; intros Hnd Hx Hy Hf.
  - by apply elem_of_nil in Hx.
  - apply NoDup_cons in Hnd as [Ha Hnd].
    apply elem_of_cons in Hx as [-> | Hx]; apply elem_of_cons in Hy as [-> | Hy]; auto.
    + exfalso. apply Ha. rewrite Hf. by apply list_elem_of_fmap_2.
    + exfalso. apply Ha. rewrite <- Hf. by apply list_elem_of_fmap_2.
  Qed.

(** The shape of a completed call: both stored lists are the merge of the
    previous current view with the freshly normalized and kept elements,
    and the scope entry of each [all*] map is that same list. *)
Lemma addCollectibles_try_shape E A items d st' :
  addCollectibles_try E A items d = Some st' →
  ∃ newContracts newCollectibles,
    Forall (λ c, keep_contract c = true) newContracts
    ∧ Forall (λ c, keep_collectible c = true) newCollectibles
    ∧ collectibleContracts st'
      = returned (mergeContractArrays (collectibleContracts (store A)) newContracts)
    ∧ collectibles st'
      = returned (mergeCollectibleArrays (collectibles (store A)) newCollectibles)
    ∧ allCollectibleContracts st'
      = <[selectedAddress A :=
            <[networkType E := collectibleContracts st']>
              (default ∅ (allCollectibleContracts (store A) !! selectedAddress A))]>
          (allCollectibleContracts (store A))
    ∧ allCollectibles st'
      = <[selectedAddress A :=
            <[networkType E := collectibles st']>
              (default ∅ (allCollectibles (store A) !! selectedAddress A))]>
          (allCollectibles (store A))
    ∧ allTokens st' = allTokens (store A) ∧ tokens st' = tokens (store A).
Proof.
  unfold addCollectibles_try. intros H.
  destruct (mapM _ (contractPromises _)) as [cs|] eqn:Hc; simpl in H; [|done].
  destruct (mapM _ (collectiblePromises _)) as [ks|] eqn:Hk; simpl in H; [|done].
  inversion H; subst; clear H. simpl.
  exists (filter (λ c, keep_contract c = true) cs),
         (filter (λ c, keep_collectible c = true) ks).
  repeat split; try done.
  - apply Forall_forall. intros c Hin. by apply list_elem_of_filter in Hin as [? _].
  - apply Forall_forall. intros c Hin. by apply list_elem_of_filter in Hin as [? _].
Qed.

Lemma addCollectibles_completed E A items d st' :
  addCollectibles_try E A items d = Some st' →
  addCollectibles E A items d = {| store := st'; selectedAddress := selectedAddress A |}.
Proof. unfold addCollectibles. by intros ->. Qed.

Lemma project_insert {V} (all : gmap string (gmap string (list V))) a n (l : list V) :
  project (<[a := <[n := l]> (default ∅ (all !! a))]> all) a n = l.
Proof. unfold project. rewrite lookup_insert_eq. simpl. by rewrite lookup_insert_eq. Qed.

(** C4. After a call of [addCollectibles] that completes, the current-view
    fields are the projection of the [all*] maps at the active scope:
    [collectibles] is [allCollectibles[selectedAddress][network]] and
    [collectibleContracts] is
    [allCollectibleContracts[selectedAddress][network]]. *)
Theorem addCollectibles_view_is_projection E A items detectFromApi :
  is_Some (addCollectibles_try E A items detectFromApi) →
  let A' := addCollectibles E A items detectFromApi in
  collectibles (store A')
    = project (allCollectibles (store A')) (selectedAddress A') (networkType E)
  ∧ collectibleContracts (store A')
    = project (allCollectibleContracts (store A')) (selectedAddress A') (networkType E).
Proof.
  intros [st' Hst']. simpl. rewrite (addCollectibles_completed _ _ _ _ _ Hst'). simpl.
  apply addCollectibles_try_shape in Hst'
    as (nc & nk & _ & _ & _ & _ & Hac & Hak & _).
  rewrite Hac, Hak. by rewrite !project_insert.
Qed.

Lemma addCollectibles_view_is_projection_witness :
  let A' := addCollectibles Sample.chain Sample.fresh [Sample.cat1] false in
  collectibles (store A') = [Sample.stored_cat1]
  ∧ collectibles (store A')
    = project (allCollectibles (store A')) (selectedAddress A') (networkType Sample.chain)
  ∧ collectibleContracts (store A')
    = project (allCollectibleContracts (store A')) (selectedAddress A')
        (networkType Sample.chain).
Proof.
  split; [vm_compute; reflexivity|].
  apply (addCollectibles_view_is_projection Sample.chain Sample.fresh [Sample.cat1] false).
  vm_compute. eauto.
Defined.

(** C3, as the code has it. Neither merge prunes by absence: every key of
    the previous current view is still present after the merge, for
    collectibles (by index key) exactly as for contracts (by address); a
    key that the new set lacks keeps an element of the previous view, which
    is the very element when the previous view held each key once; the new
    elements come first. *)
Theorem merges_retain_absent_entries
  (old new : list Collectible) (oldContracts newContracts : list Contract)
  (c : Collectible) (k : Contract) :
  c ∈ old → k ∈ oldContracts →
  (∃ c', c' ∈ returned (mergeCollectibleArrays old new)
         ∧ cl_collectibleIndex c' = cl_collectibleIndex c
         ∧ (cl_collectibleIndex c ∉ map cl_collectibleIndex new →
            c' ∈ old ∧ (NoDup (map cl_collectibleIndex old) → c' = c)))
  ∧ (∃ k', k' ∈ returned (mergeContractArrays oldContracts newContracts)
         ∧ byAddress k' = byAddress k
         ∧ (byAddress k ∉ map byAddress newContracts →
            k' ∈ oldContracts ∧ (NoDup (map byAddress oldContracts) → k' = k)))
  ∧ new `prefix_of` returned (mergeCollectibleArrays old new)
  ∧ newContracts `prefix_of` returned (mergeContractArrays oldContracts newContracts).
Proof.
  intros Hc Hk. split; [|split; [|split]].
  - rewrite mergeCollectibleArrays_merge_by.
    destruct (merge_by_keeps_key cl_collectibleIndex old new c Hc) as (c' & Hin & He & Hold).
    exists c'. split; [done|]. split; [done|]. intros Hn.
    destruct (Hold Hn) as [Ho _]. split; [done|]. intros Hnd.
    by apply (NoDup_fmap_eq cl_collectibleIndex old).
  - rewrite mergeContractArrays_merge_by.
    destruct (merge_by_keeps_key byAddress oldContracts newContracts k Hk)
      as (k' & Hin & He & Hold).
    exists k'. split; [done|]. split; [done|]. intros Hn.
    destruct (Hold Hn) as [Ho _]. split; [done|]. intros Hnd.
    by apply (NoDup_fmap_eq byAddress oldContracts).
  - rewrite mergeCollectibleArrays_merge_by, merge_by_spec. by apply prefix_app_r.
  - rewrite mergeContractArrays_merge_by, merge_by_spec. by apply prefix_app_r.
Qed.

Lemma merges_retain_absent_entries_witness :
  (∃ c', c' ∈ returned (mergeCollectibleArrays [Sample.stored_cat1] [Sample.stored_dog2])
         ∧ cl_collectibleIndex c' = "0xaa_1")
  ∧ (∃ k', k' ∈ returned (mergeContractArrays [Sample.contract_of "0xaa"]
                             [Sample.contract_of "0xbb"])
         ∧ byAddress k' = "0xaa").
Proof.
  destruct (merges_retain_absent_entries
              [Sample.stored_cat1] [Sample.stored_dog2]
              [Sample.contract_of "0xaa"] [Sample.contract_of "0xbb"]
              Sample.stored_cat1 (Sample.contract_of "0xaa"))
    as [(c' & H1 & H2 & _) [(k' & H3 & H4 & _) _]].
  - apply list_elem_of_here.
  - apply list_elem_of_here.
  - split; [by exists c' | by exists k'].
Defined.

(** The claim of C3 about collectibles fails: a collectible of the
    previous view whose index key the new set lacks is still in the merged
    list, in the current view and in the scope entry of [allCollectibles]
    after the next call; the contract in the same situation is kept too. *)
Lemma collectible_pruning_counterexample :
  let A1 := addCollectibles Sample.chain Sample.fresh [Sample.cat1] false in
  let A2 := addCollectibles Sample.chain A1 [Sample.dog2] false in
  collectibles (store A1) = [Sample.stored_cat1]
  ∧ returned (mergeCollectibleArrays [Sample.stored_cat1] [Sample.stored_dog2])
    = [Sample.stored_dog2; Sample.stored_cat1]
  ∧ newArray_after (mergeCollectibleArrays [Sample.stored_cat1] [Sample.stored_dog2])
    = [Sample.stored_dog2; Sample.stored_cat1]
  ∧ collectibles (store A2) = [Sample.stored_dog2; Sample.stored_cat1]
  ∧ project (allCollectibles (store A2)) "0xuser" "mainnet"
    = [Sample.stored_dog2; Sample.stored_cat1]
  ∧ collectibleContracts (store A2)
    = [Sample.contract_of "0xbb"; Sample.contract_of "0xaa"].
Proof. vm_compute. repeat split. Qed.

(** *** Contracts without a name or a symbol *)

Lemma keep_contract_named c : keep_contract c = true ↔ named c.
Proof. unfold keep_contract, named. apply andb_true_iff. Qed.

Lemma merge_by_Forall {V} (key : V → string) (P : V → Prop) old new :
  Forall P old → Forall P new → Forall P (merge_by key old new).
Proof.
  rewrite !Forall_forall. intros Ho Hn v Hv.
  apply merge_by_elem in Hv as [Hv | Hv]; [by apply Hn|].
  apply kept_old_elem in Hv as [Hv _]. by apply Ho.
Qed.

Lemma project_Forall_named st address network :
  contracts_named st → Forall named (project (allCollectibleContracts st) address network).
Proof.
  intros [_ Hall]. unfold project.
  destruct (allCollectibleContracts st !! address) as [byNetwork|] eqn:Ha; simpl; [|done].
  destruct (byNetwork !! network) as [l|] eqn:Hn; simpl; [|done]. eauto.
Qed.

(** Within one call, a contract that was not in the view before is one
    that passed the name-and-symbol test. *)
Lemma addCollectibles_adds_named E A items d c :
  c ∈ collectibleContracts (store (addCollectibles E A items d)) →
  c ∈ collectibleContracts (store A) ∨ named c.
Proof.
  unfold addCollectibles.
  destruct (addCollectibles_try E A items d) as [st'|] eqn:Ht; [|by left]. simpl.
  apply addCollectibles_try_shape in Ht as (nc & nk & Hnc & _ & Hv & _). rewrite Hv.
  rewrite mergeContractArrays_merge_by. intros Hc.
  apply merge_by_elem in Hc as [Hc | Hc].
  - right. apply keep_contract_named. by apply (proj1 (Forall_forall _ _) Hnc).
  - left. by apply kept_old_elem in Hc as [? _].
Qed.

Lemma addCollectibles_named E A items d :
  contracts_named (store A) → contracts_named (store (addCollectibles E A items d)).
Proof.
  intros HA. unfold addCollectibles.
  destruct (addCollectibles_try E A items d) as [st'|] eqn:Ht; [|done]. simpl.
  apply addCollectibles_try_shape in Ht as (nc & nk & Hnc & _ & Hv & _ & Hall & _).
  assert (Forall named (collectibleContracts st')) as Hview.
  { rewrite Hv, mergeContractArrays_merge_by. apply merge_by_Forall; [apply HA|].
    eapply Forall_impl; [exact Hnc|]. intros c. apply keep_contract_named. }
  split; [done|]. intros a byNetwork n l. rewrite Hall.
  destruct (decide (selectedAddress A = a)) as [<- | Hne].
  - rewrite lookup_insert_eq. intros [= <-].
    destruct (decide (networkType E = n)) as [<- | Hne].
    + rewrite lookup_insert_eq. by intros [= <-].
    + rewrite lookup_insert_ne by done.
      destruct (allCollectibleContracts (store A) !! selectedAddress A) eqn:Hs; simpl.
      * intros Hl. by eapply (proj2 HA).
      * by rewrite lookup_empty.
  - rewrite lookup_insert_ne by done. apply HA.
Qed.

(** C6. In every state the store reaches, every stored contract (in the
    current view and in every scope of [allCollectibleContracts]) has a
    non-empty name and a non-empty symbol; and a call of [addCollectibles]
    adds to the view only contracts that passed that test: a normalized
    contract with an empty or missing name or symbol is never stored. *)
Theorem stored_contracts_are_named A :
  reachable A →
  contracts_named (store A)
  ∧ ∀ E items detectFromApi c,
      c ∈ collectibleContracts (store (addCollectibles E A items detectFromApi)) →
      c ∉ collectibleContracts (store A) →
      truthy (ct_name c) = true ∧ truthy (ct_symbol c) = true.
Proof.
  intros HA. split.
  - induction HA as [sel | A A' HA IH Hstep].
    + split; simpl; [done|]. intros ????. by rewrite lookup_empty.
    + destruct Hstep as [E items d | E address | network].
      * by apply addCollectibles_named.
      * split; [by apply project_Forall_named | apply IH].
      * split; [by apply project_Forall_named | apply IH].
  - intros E items d c Hin Hnin.
    by destruct (addCollectibles_adds_named _ _ _ _ _ Hin).
Qed.

Lemma stored_contracts_are_named_witness :
  contracts_named (store (addCollectibles Sample.chain Sample.fresh [Sample.cat1] false)).
Proof.
  apply (stored_contracts_are_named
           (addCollectibles Sample.chain Sample.fresh [Sample.cat1] false)).
  eapply reachable_step; [apply (reachable_init "0xuser") | apply step_addCollectibles].
Defined.

(** *** Balances *)

(** A complete ERC721 item without a balance gets balance 1. *)
Lemma normalize_erc721_missing_balance E A x d :
  truthy (ca_name x) = true → truthy (ca_image x) = true →
  ca_standard x = JStr CONTRACT_TYPE_ERC721 → truthy (ca_tokenBalance x) = false →
  cl_tokenBalance <$> _normalizeCollectibleDetails E A x d
  = (λ _, JNum 1) <$> checksum_if_address E (ca_address x).
Proof.
  intros Hn Hi Hs Hb. unfold _normalizeCollectibleDetails.
  destruct (checksum_if_address E (ca_address x)) as [a|]; simpl; [|done].
  rewrite Hn, Hi, Hs. simpl. by rewrite Hb.
Qed.

(** A complete ERC1155 item without a balance keeps its missing balance
    when the chain lookup answers, whatever the answer; it gets [null]
    when the lookup fails. *)
Lemma normalize_erc1155_missing_balance E A x d a :
  truthy (ca_name x) = true → truthy (ca_image x) = true →
  ca_standard x = JStr CONTRACT_TYPE_ERC1155 → truthy (ca_tokenBalance x) = false →
  checksum_if_address E (ca_address x) = Some a →
  cl_tokenBalance <$> _normalizeCollectibleDetails E A x d
  = Some (match getErc1155Balance E a (selectedAddress A) (ca_tokenID x) with
          | Some _ => ca_tokenBalance x
          | None => JNull
          end).
Proof.
  intros Hn Hi Hs Hb Ha. unfold _normalizeCollectibleDetails.
  rewrite Ha. simpl. rewrite Hn, Hi, Hs. simpl. rewrite Hb. simpl.
  by destruct (getErc1155Balance E a (selectedAddress A) (ca_tokenID x)).
Qed.

(** C7, at a concrete ERC1155 item. The chain reports balance 5, the
    normalized [tokenBalance] is still [undefined], and [addCollectibles]
    then leaves the token out of the store. *)
Lemma erc1155_balance_lookup_discarded :
  getErc1155Balance Sample.chain "0xcc" "0xuser" "7" = Some (JNum 5)
  ∧ cl_tokenBalance
      <$> _normalizeCollectibleDetails Sample.chain Sample.fresh Sample.multi7_args false
    = Some JUndefined
  ∧ collectibles (store (addCollectibles Sample.chain Sample.fresh [Sample.multi7] false))
    = [].
Proof. vm_compute. repeat split. Qed.

(** *** Repeating a call *)

Lemma normalizeCollectible_selected E A A' x d :
  selectedAddress A = selectedAddress A' →
  _normalizeCollectibleDetails E A x d = _normalizeCollectibleDetails E A' x d.
Proof.
  intros Hs. unfold _normalizeCollectibleDetails, getCollectibleInfo,
    getCollectibleInfoFromApi, getCollectibleInformationFromTokenURI.
  by rewrite Hs.
Qed.

Lemma mergeContractArrays_idem old new :
  returned (mergeContractArrays (returned (mergeContractArrays old new)) new)
  = returned (mergeContractArrays old new).
Proof. apply (merge_by_idem byAddress). Qed.

Lemma mergeCollectibleArrays_idem old new :
  returned (mergeCollectibleArrays (returned (mergeCollectibleArrays old new)) new)
  = returned (mergeCollectibleArrays old new).
Proof. apply (merge_by_idem cl_collectibleIndex). Qed.

(** Puts an unfolded merge back under its name. *)
Ltac fold_merges :=
  repeat match goal with
         | |- context [push_missing (getObjectFromArrayBasedonKey ?o ?k)
                         (getObjectFromArrayBasedonKey ?n ?k) ?n] =>
             change (push_missing (getObjectFromArrayBasedonKey o k)
                       (getObjectFromArrayBasedonKey n k) n)
               with (merge_by k o n)
         end.

Lemma addCollectibles_try_twice E A items d st' :
  addCollectibles_try E A items d = Some st' →
  addCollectibles_try E {| store := st'; selectedAddress := selectedAddress A |} items d
  = Some st'.
Proof.
  intros H. unfold addCollectibles_try in *.
  rewrite (mapM_ext
             (λ x, _normalizeCollectibleDetails E
                     {| store := st'; selectedAddress := selectedAddress A |} x d)
             (λ x, _normalizeCollectibleDetails E A x d))
    by (intros x; by apply normalizeCollectible_selected).
  destruct (mapM _ (contractPromises _)) as [cs|]; simpl in *; [|done].
  destruct (mapM _ (collectiblePromises _)) as [ks|]; simpl in *; [|done].
  inversion H as [Hst]. clear H. subst st'. simpl.
  fold_merges. rewrite !merge_by_idem, !lookup_insert_eq. simpl.
  by rewrite !insert_insert_eq.
Qed.

Lemma addCollectibles_twice E A items d :
  addCollectibles E (addCollectibles E A items d) items d = addCollectibles E A items d.
Proof.
  unfold addCollectibles at 2 3.
  destruct (addCollectibles_try E A items d) as [st'|] eqn:Ht.
  - unfold addCollectibles. by rewrite (addCollectibles_try_twice _ _ _ _ _ Ht).
  - unfold addCollectibles. by rewrite Ht.
Qed.

(** The first loop never starts two normalizations for one raw index, and
    every started normalization is for the address of one of the items. *)
Lemma schedule_invariant (P : string → Prop) items p :
  (∀ it, it ∈ items → P (contractAddress it)) →
  NoDup (map rawIndex (collectiblePromises p)) →
  (∀ x, x ∈ collectiblePromises p → rawIndex x ∈ collectibleTempIndex p) →
  Forall (λ x, P (ca_address x)) (collectiblePromises p) →
  Forall (λ x, P (cd_contractAddress x)) (contractPromises p) →
  let q := fold_left schedule items p in
  NoDup (map rawIndex (collectiblePromises q))
  ∧ Forall (λ x, P (ca_address x)) (collectiblePromises q)
  ∧ Forall (λ x, P (cd_contractAddress x)) (contractPromises q).
Proof.
  revert p. induction items as [|it items IH]; intros p HP Hnd Hidx Hk Hc; simpl; [done|].
  assert (P (contractAddress it)) as Hit by apply HP, list_elem_of_here.
  assert (∀ it', it' ∈ items → P (contractAddress it')) as HP'
    by (intros; apply HP; by apply list_elem_of_further).
  apply IH; try done; unfold schedule;
    destruct (negb (tokenID it =? "")%string && negb (contractAddress it =? "")%string);
    try done; repeat case_bool_decide; simpl; try done.
  all: try (apply Forall_app; split; [done | by apply Forall_singleton]).
  all: try (clear IH; rewrite fmap_app; apply NoDup_app; split; [done|];
            split; [|apply NoDup_singleton];
            intros k Hin Hk'; apply list_elem_of_singleton in Hk'; subst k;
            apply list_elem_of_fmap in Hin as [x [Hx Hin]]; apply Hidx in Hin;
            unfold rawIndex in Hx, Hin; simpl in Hx; rewrite <- Hx in Hin; set_solver).
  all: clear IH; intros x Hx;
       first [ apply elem_of_app in Hx as [Hx | Hx];
               [ apply Hidx in Hx; set_solver
               | apply list_elem_of_singleton in Hx; subst x; unfold rawIndex; simpl;
                 set_solver ]
             | apply Hidx in Hx; set_solver ].
Qed.

Lemma spread_info_index c i : cl_collectibleIndex (spread_info c i) = cl_collectibleIndex c.
Proof. by destruct i. Qed.

Lemma normalizeCollectible_index E A x d c :
  _normalizeCollectibleDetails E A x d = Some c →
  ∃ a, checksum_if_address E (ca_address x) = Some a
       ∧ cl_collectibleIndex c = a +:+ "_" +:+ ca_tokenID x.
Proof.
  unfold _normalizeCollectibleDetails.
  destruct (checksum_if_address E (ca_address x)) as [a|]; simpl; [|done].
  intros H. exists a. split; [done|].
  repeat match type of H with
         | context [if ?b then _ else _] => destruct b
         | context [match ?o with Some _ => _ | None => _ end] => destruct o
         end;
    inversion H; subst; simpl; by rewrite ?spread_info_index.
Qed.

Lemma normalizeCollectible_total E A x d :
  is_Some (checksum_if_address E (ca_address x)) →
  is_Some (_normalizeCollectibleDetails E A x d).
Proof.
  intros [a Ha]. unfold _normalizeCollectibleDetails. rewrite Ha. simpl.
  repeat match goal with
         | |- context [if ?b then _ else _] => destruct b
         | |- context [match ?o with Some _ => _ | None => _ end] => destruct o
         end; eauto.
Qed.

Lemma normalizeContract_total E x d :
  is_Some (checksum_if_address E (cd_contractAddress x)) →
  is_Some (_normalizeContractDetails E x d).
Proof.
  intros [a Ha]. unfold _normalizeContractDetails. rewrite Ha. simpl.
  repeat match goal with
         | |- context [if ?b then _ else _] => destruct b
         | |- context [match ?o with Some _ => _ | None => _ end] => destruct o
         end; eauto.
Qed.

Lemma normalized_keys E A d xs ks :
  Forall2 (λ x c, _normalizeCollectibleDetails E A x d = Some c) xs ks →
  Forall (λ x, checksum_if_address E (ca_address x) = Some (ca_address x)) xs →
  map cl_collectibleIndex ks = map rawIndex xs.
Proof.
  induction 1 as [|x c xs ks Hx _ IH]; intros Hk; simpl; [done|].
  apply Forall_cons in Hk as [Hx' Hk]. f_equal; [|by apply IH].
  apply normalizeCollectible_index in Hx as (a & Ha & ->).
  rewrite Hx' in Ha. by inversion Ha.
Qed.

Lemma no_pending_invariant (P : string → Prop) items :
  (∀ it, it ∈ items → P (contractAddress it)) →
  let q := fold_left schedule items no_pending in
  NoDup (map rawIndex (collectiblePromises q))
  ∧ Forall (λ x, P (ca_address x)) (collectiblePromises q)
  ∧ Forall (λ x, P (cd_contractAddress x)) (contractPromises q).
Proof.
  intros HP. apply schedule_invariant; simpl; try done.
  - apply NoDup_nil_2.
  - intros x Hx. by apply elem_of_nil in Hx.
Qed.

(** With addresses that normalization leaves as they are, a call always
    completes and the collectibles of the view have pairwise distinct
    index keys. *)
Lemma addCollectibles_distinct_keys E A items d :
  (∀ it, it ∈ items →
     checksum_if_address E (contractAddress it) = Some (contractAddress it)) →
  ∃ st', addCollectibles_try E A items d = Some st'
         ∧ NoDup (map cl_collectibleIndex (collectibles st')).
Proof.
  intros Hnorm.
  destruct (no_pending_invariant
              (λ a, checksum_if_address E a = Some a) items Hnorm) as (Hnd & Hk & Hc).
  assert (is_Some (mapM (λ x, _normalizeContractDetails E x d)
                     (contractPromises (fold_left schedule items no_pending)))) as [cs Hcs].
  { apply mapM_is_Some. eapply Forall_impl; [exact Hc|]. simpl.
    intros x Hx. apply normalizeContract_total. rewrite Hx. eauto. }
  assert (is_Some (mapM (λ x, _normalizeCollectibleDetails E A x d)
                     (collectiblePromises (fold_left schedule items no_pending)))) as [ks Hks].
  { apply mapM_is_Some. eapply Forall_impl; [exact Hk|]. simpl.
    intros x Hx. apply normalizeCollectible_total. rewrite Hx. eauto. }
  assert (map cl_collectibleIndex ks
          = map rawIndex (collectiblePromises (fold_left schedule items no_pending))) as Hkeys.
  { apply mapM_Some_1 in Hks. by apply (normalized_keys E A d). }
  eexists. split.
  - unfold addCollectibles_try. rewrite Hcs. simpl. rewrite Hks. simpl. reflexivity.
  - simpl. fold_merges. apply merge_by_NoDup.
    eapply sublist_NoDup; [|apply (fmap_sublist cl_collectibleIndex), sublist_filter].
    change (NoDup (map cl_collectibleIndex ks)). by rewrite Hkeys.
Qed.

(** C9. The store merge is idempotent. Merging the same new list into
    the result of the merge gives that result again, for every stored
    list; a new list with pairwise distinct index keys gives a merged list
    with pairwise distinct index keys. For the whole call: a second
    [addCollectibles] with the same source results leaves the controller
    exactly as the first left it, and for source results whose addresses
    are already normalized the collectibles of the scope hold every index
    key once. *)
Theorem store_merge_idempotent E A items detectFromApi (old new : list Collectible) :
  let A1 := addCollectibles E A items detectFromApi in
  returned (mergeCollectibleArrays (returned (mergeCollectibleArrays old new)) new)
    = returned (mergeCollectibleArrays old new)
  ∧ (NoDup (map cl_collectibleIndex new) →
     NoDup (map cl_collectibleIndex (returned (mergeCollectibleArrays old new))))
  ∧ addCollectibles E A1 items detectFromApi = A1
  ∧ ((∀ it, it ∈ items →
        checksum_if_address E (contractAddress it) = Some (contractAddress it)) →
     NoDup (map cl_collectibleIndex (collectibles (store A1)))
     ∧ NoDup (map cl_collectibleIndex
                (project (allCollectibles (store A1)) (selectedAddress A1) (networkType E)))).
Proof.
  simpl. split; [apply mergeCollectibleArrays_idem|].
  split; [apply (merge_by_NoDup cl_collectibleIndex)|].
  split; [apply addCollectibles_twice|].
  intros Hnorm.
  destruct (addCollectibles_distinct_keys E A items detectFromApi Hnorm) as (st' & Ht & Hnd).
  rewrite (addCollectibles_completed _ _ _ _ _ Ht). simpl.
  split; [done|].
  apply addCollectibles_try_shape in Ht as (nc & nk & _ & _ & _ & _ & _ & Hak & _).
  rewrite Hak. by rewrite project_insert.
Qed.

Lemma store_merge_idempotent_witness :
  let A1 := addCollectibles Sample.chain Sample.fresh [Sample.cat1; Sample.dog2] false in
  addCollectibles Sample.chain A1 [Sample.cat1; Sample.dog2] false = A1
  ∧ NoDup (map cl_collectibleIndex (collectibles (store A1)))
  ∧ NoDup (map cl_collectibleIndex
             (returned (mergeCollectibleArrays [Sample.stored_cat1] [Sample.stored_dog2]))).
Proof.
  destruct (store_merge_idempotent Sample.chain Sample.fresh
              [Sample.cat1; Sample.dog2] false [Sample.stored_cat1] [Sample.stored_dog2])
    as (_ & Hmerge & Hidem & Hkeys).
  split; [exact Hidem|]. split.
  - apply Hkeys. intros it Hit. reflexivity.
  - apply Hmerge. apply (bool_decide_unpack _). by vm_compute.
Defined.

End StoreFacts.

(** ** The detection controller *)

Module DetectionFacts.
Import AssetsDetection.

(** *** Strings *)

Lemma append_assoc (a b c : string) : (a +:+ b) +:+ c = a +:+ (b +:+ c).
Proof.
  induction a as [|x a IH]; [done|].
  change (String x ((a +:+ b) +:+ c) = String x (a +:+ (b +:+ c))). by rewrite IH.
Qed.

Lemma append_nil_r (a : string) : a +:+ "" = a.
Proof.
  induction a as [|x a IH]; [done|].
  change (String x (a +:+ "") = String x a). by rewrite IH.
Qed.

Lemma length_append (a b : string) :
  String.length (a +:+ b) = (String.length a + String.length b)%nat.
Proof.
  induction a as [|x a IH]; [done|].
  change (S (String.length (a +:+ b)) = S (String.length a + String.length b)%nat).
  by rewrite IH.
Qed.

(** *** The label of the contract-indexer adapter *)

Lemma covalentToken_label p item s nft :
  contractName (covalentToken p item s nft)
  = JStr (template (contractName s) +:+ labelSuffix p nft).
Proof.
  unfold covalentToken, labelSuffix.
  destruct (includes "erc1155" (supports_erc nft)); simpl; by rewrite ?append_assoc.
Qed.

Lemma covalentToken_collectibles p item s nft :
  ∃ c, collectibles (covalentToken p item s nft) = collectibles s ++ [c]
       ∧ tokenID c = token_id nft
       ∧ oread (options c) "contractName"
         = JStr (template (contractName s) +:+ labelSuffix p nft).
Proof.
  unfold covalentToken, labelSuffix.
  destruct (includes "erc1155" (supports_erc nft)); simpl;
    eexists; (split; [reflexivity|]); split; try reflexivity;
    unfold oread; simpl; by rewrite ?append_assoc.
Qed.

(** The loop over the tokens of one record: the [j]-th token pushes one
    collectible whose label is the label before the loop followed by the
    suffixes of the tokens 0..j. *)
Lemma covalent_loop p item nfts s :
  let s' := fold_left (covalentToken p item) nfts s in
  length (collectibles s') = length (collectibles s) + length nfts
  ∧ collectibles s `prefix_of` collectibles s'
  ∧ ∀ j nft, nfts !! j = Some nft →
      ∃ c, collectibles s' !! (length (collectibles s) + j) = Some c
           ∧ tokenID c = token_id nft
           ∧ oread (options c) "contractName"
             = JStr (template (contractName s)
                       +:+ concatStrings (map (labelSuffix p) (take (S j) nfts))).
Proof.
  revert s. induction nfts as [|nft0 nfts IH]; intros s; simpl.
  - split; [lia|]. split; [done|]. intros j nft H. by rewrite lookup_nil in H.
  - destruct (IH (covalentToken p item s nft0)) as (Hlen & Hpre & Hnth).
    destruct (covalentToken_collectibles p item s nft0) as (c0 & Hc0 & Hid0 & Hname0).
    rewrite Hc0 in Hlen, Hpre, Hnth. rewrite length_app in Hlen, Hnth. simpl in *.
    split; [lia|]. split; [etrans; [|exact Hpre]; by apply prefix_app_r|].
    intros [|j] nft Hj; simpl in Hj.
    + inversion Hj; subst nft0. exists c0. split; [|split; [done|]].
      * rewrite Nat.add_0_r. destruct Hpre as [k ->].
        rewrite <- app_assoc. by rewrite lookup_app_r, Nat.sub_diag by lia.
      * rewrite Hname0, take_0. simpl. by rewrite append_nil_r.
    + destruct (Hnth j nft Hj) as (c & Hc & Hid & Hname). exists c.
      split; [|split; [done|]].
      * rewrite <- Hc. f_equal. lia.
      * rewrite Hname, covalentToken_label. simpl. by rewrite append_assoc.
Qed.

Lemma covalent_loop_prefix p item nfts s1 s2 pre :
  contractName s1 = contractName s2 →
  contractFallbackLogo s1 = contractFallbackLogo s2 →
  loop_i s1 = loop_i s2 →
  collectibles s1 = pre ++ collectibles s2 →
  collectibles (fold_left (covalentToken p item) nfts s1)
  = pre ++ collectibles (fold_left (covalentToken p item) nfts s2).
Proof.
  revert s1 s2. induction nfts as [|nft nfts IH]; intros s1 s2 Hn Hl Hi Hc; simpl; [done|].
  apply IH; unfold covalentToken; rewrite Hn, Hl, Hi, Hc;
    destruct (includes "erc1155" (supports_erc nft)); simpl; by rewrite <- ?app_assoc.
Qed.

(** The list of the adapter is the concatenation of what the records of
    the response contribute. *)
Lemma covalentItem_collectibles p acc item :
  (covalentItem p acc item).1 = acc.1 ++ recordCollectibles p item.
Proof.
  unfold recordCollectibles, covalentItem.
  destruct (strict_eq (type item) (JStr "nft")); simpl; [|by rewrite app_nil_r].
  destruct (nft_data item) as [[|nft nfts]|]; simpl; try by rewrite app_nil_r.
  change (collectibles
            (fold_left (covalentToken p item) (nft :: nfts)
               {| contractName := contract_name item; contractFallbackLogo := JUndefined;
                  loop_i := 0; collectibles := acc.1; collectiblesMap := acc.2 |})
          = acc.1 ++ collectibles
              (fold_left (covalentToken p item) (nft :: nfts)
                 {| contractName := contract_name item; contractFallbackLogo := JUndefined;
                    loop_i := 0; collectibles := []; collectiblesMap := [] |})).
  apply covalent_loop_prefix; simpl; try done. by rewrite app_nil_r.
Qed.

Lemma detectCollectiblesFromCovalent_records E C network :
  selectedAddress C ≠ "" →
  ∃ C', (detectCollectiblesFromCovalent E C network).1 = C'
        ∧ (detectCollectiblesFromCovalent E C network).2.1
          = flat_map (recordCollectibles (protocolPrefixOf E network))
              (getOwnerCollectibles_covalent E C').
Proof.
  intros Hsel. unfold detectCollectiblesFromCovalent.
  destruct (String.eqb (selectedAddress C) "") eqn:He; [by apply String.eqb_eq in He|].
  eexists. split; [reflexivity|]. simpl.
  generalize (getOwnerCollectibles_covalent E
                (set_assetController C
                   (AssetController.setSelectedAddress (store_env E) (assetController C)
                      (selectedAddress C)))) as items.
  intros items.
  assert (∀ acc, (fold_left (covalentItem (protocolPrefixOf E network)) items acc).1
                 = acc.1 ++ flat_map (recordCollectibles (protocolPrefixOf E network)) items)
    as H.
  { induction items as [|it items IH]; intros acc; simpl; [by rewrite app_nil_r|].
    by rewrite IH, covalentItem_collectibles, <- app_assoc. }
  apply (H ([], [])).
Qed.

Lemma labelSuffix_length p nft :
  (String.length p + 6 ≤ String.length (labelSuffix p nft) ≤ String.length p + 7)%nat.
Proof.
  unfold labelSuffix. destruct (includes "erc1155" (supports_erc nft));
    rewrite !length_append; simpl; lia.
Qed.

Lemma concatStrings_length p nfts :
  (length nfts * (String.length p + 6)
   ≤ String.length (concatStrings (map (labelSuffix p) nfts)))%nat.
Proof.
  induction nfts as [|nft nfts IH]; simpl; [lia|].
  rewrite length_append. pose proof (labelSuffix_length p nft). lia.
Qed.

Lemma recordCollectibles_nft p item nfts :
  type item = JStr "nft" → nft_data item = Some nfts →
  recordCollectibles p item
  = collectibles
      (fold_left (covalentToken p item) nfts
         {| contractName := contract_name item; contractFallbackLogo := JUndefined;
            loop_i := 0; collectibles := []; collectiblesMap := [] |}).
Proof.
  intros Ht Hn. unfold recordCollectibles, covalentItem, strict_eq. rewrite Ht, Hn.
  rewrite bool_decide_eq_true_2 by done. by destruct nfts.
Qed.

(** C10. In a record of the contract-indexer response with tokens
    [nft_data], the collectible of the [i]-th token (from 0) carries as
    [contractName] the contract name followed by the suffixes of the
    tokens 0..i, that is [i + 1] suffixes [" ({prefix}721)"] or
    [" ({prefix}1155)"]: the label of a single-token record is the name
    with one suffix, and from the second token on the label is none of the
    two one-suffix labels. *)
Theorem covalent_label_accumulates protocolPrefix item nfts i nft :
  type item = JStr "nft" → nft_data item = Some nfts → nfts !! i = Some nft →
  let label :=
    template (contract_name item)
      +:+ concatStrings (map (labelSuffix protocolPrefix) (take (S i) nfts)) in
  length (recordCollectibles protocolPrefix item) = length nfts
  ∧ (∃ c, recordCollectibles protocolPrefix item !! i = Some c
          ∧ tokenID c = token_id nft
          ∧ oread (options c) "contractName" = JStr label)
  ∧ length (map (labelSuffix protocolPrefix) (take (S i) nfts)) = S i
  ∧ (i = 0 → label = template (contract_name item) +:+ labelSuffix protocolPrefix nft)
  ∧ ((1 ≤ i)%nat →
     label ≠ template (contract_name item) +:+ " (" +:+ protocolPrefix +:+ "721)"
     ∧ label ≠ template (contract_name item) +:+ " (" +:+ protocolPrefix +:+ "1155)").
Proof.
  intros Ht Hn Hi label.
  rewrite (recordCollectibles_nft _ _ _ Ht Hn).
  destruct (covalent_loop protocolPrefix item nfts
              {| contractName := contract_name item; contractFallbackLogo := JUndefined;
                 loop_i := 0; collectibles := []; collectiblesMap := [] |})
    as (Hlen & _ & Hnth). simpl in Hlen, Hnth.
  pose proof (lookup_lt_Some _ _ _ Hi) as Hlt.
  assert (length (take (S i) nfts) = S i) as Htake by (rewrite length_take; lia).
  split; [done|]. split; [by apply Hnth|]. split; [by rewrite length_map|]. split.
  - intros ->. unfold label. destruct nfts as [|n0 nfts']; [done|].
    simpl in Hi. inversion Hi; subst n0. simpl. rewrite ?take_0. simpl.
    by rewrite append_nil_r.
  - intros Hge.
    pose proof (concatStrings_length protocolPrefix (take (S i) nfts)) as Hc.
    rewrite Htake in Hc.
    split; intros Heq; apply (f_equal String.length) in Heq; unfold label in Heq;
      rewrite !length_append in Heq; simpl in Heq; nia.
Qed.

Lemma covalent_label_accumulates_witness :
  ∃ c, recordCollectibles "ERC" Sample.two_tokens !! 1 = Some c
       ∧ oread (options c) "contractName" = JStr "Cats (ERC721) (ERC1155)".
Proof.
  destruct (covalent_label_accumulates "ERC" Sample.two_tokens
              [Sample.token_a; Sample.token_b] 1 Sample.token_b)
    as (_ & (c & Hc & _ & Hname) & _); [reflexivity ..|].
  exists c. split; [exact Hc | exact Hname].
Defined.

(** *** The user-supplied adapter *)

Lemma custom_fold E C l acc m :
  fold_left (customStep E C) l (acc, m)
  = (acc ++ map (resolveCustomNft E C) l,
     fold_left (λ m c, oset m (collectibleIndex c) c) (omap (resolveCustomNft E C) l) m).
Proof.
  revert acc m. induction l as [|x l IH]; intros acc m; simpl.
  - by rewrite app_nil_r.
  - unfold customStep at 2. destruct (resolveCustomNft E C x) as [c|]; simpl;
      rewrite IH, <- app_assoc; done.
Qed.

Lemma omap_id_fmap {A B} (f : A → option B) (l : list A) : omap id (map f l) = omap f l.
Proof.
  induction l as [|x l IH]; [done|].
  change (match f x with Some y => y :: omap id (map f l) | None => omap id (map f l) end
          = match f x with Some y => y :: omap f l | None => omap f l end).
  by rewrite IH.
Qed.

(** The result of [getCustomNfts] for a non-empty address: the entries of
    the active network that resolve, in order, and the map of those. *)
Lemma getCustomNfts_spec E C l force :
  selectedAddress C ≠ "" →
  ∃ C',
    getCustomNfts E C (Some l) force
    = Some (C',
            (omap (resolveCustomNft E C)
               (filter (λ x, network x = getNetworkNameFromNetworkCode E) l),
             AssetController.getObjectFromArrayBasedonKey
               (omap (resolveCustomNft E C)
                  (filter (λ x, network x = getNetworkNameFromNetworkCode E) l))
               collectibleIndex)).
Proof.
  intros Hsel. unfold getCustomNfts.
  destruct (String.eqb (selectedAddress C) "") eqn:He;
    [by apply String.eqb_eq in He|]. simpl.
  rewrite custom_fold. simpl. rewrite omap_id_fmap. eauto.
Qed.

Lemma resolveCustomNft_Some E C x c :
  resolveCustomNft E C x = Some c →
  ∃ balance,
    fetchNftBalance E (nft_address x) (nft_id x) (selectedAddress C)
      (nft_contract_standard x) = Some balance
    ∧ balance ≠ JNum 0
    ∧ oread (options c) "tokenBalance" = balance
    ∧ contractAddress c = nft_address x ∧ tokenID c = nft_id x.
Proof.
  unfold resolveCustomNft.
  destruct (fetchNftBalance E _ _ _ _) as [b|]; simpl; [|done].
  unfold strict_eq. case_bool_decide as Hb; [done|].
  destruct (negb (truthy (description x)) || negb (truthy (nft_image_link x))
            || negb (truthy (nft_name x))); simpl.
  - destruct (getNftMetadata E _ _ _ _) as [md|]; simpl; [|done].
    intros [= <-]. by exists b.
  - intros [= <-]. by exists b.
Qed.

(** C5. For a batch of custom entries and a non-empty address, the
    returned list holds exactly the entries of the active network that
    resolve, in order, each resolved on its own: an entry whose balance is
    0, whose balance lookup fails or whose metadata lookup fails is left
    out and the others are kept. No collectible of the returned list or of
    the map has balance 0, and the map holds exactly the keys of the
    list. *)
Theorem custom_failures_omit_one_entry E C l forceUpdateStore C' tokens cmap :
  selectedAddress C ≠ "" →
  getCustomNfts E C (Some l) forceUpdateStore = Some (C', (tokens, cmap)) →
  tokens = omap (resolveCustomNft E C)
             (filter (λ x, network x = getNetworkNameFromNetworkCode E) l)
  ∧ (∀ x, fetchNftBalance E (nft_address x) (nft_id x) (selectedAddress C)
            (nft_contract_standard x) = Some (JNum 0) →
          resolveCustomNft E C x = None)
  ∧ (∀ x, fetchNftBalance E (nft_address x) (nft_id x) (selectedAddress C)
            (nft_contract_standard x) = None →
          resolveCustomNft E C x = None)
  ∧ (∀ x, truthy (description x) && truthy (nft_image_link x) && truthy (nft_name x)
          = false →
          getNftMetadata E (nft_address x) (nft_id x) (selectedAddress C)
            (nft_contract_standard x) = None →
          resolveCustomNft E C x = None)
  ∧ (∀ c, c ∈ tokens → oread (options c) "tokenBalance" ≠ JNum 0)
  ∧ (∀ k c, oget cmap k = Some c →
            c ∈ tokens ∧ collectibleIndex c = k
            ∧ oread (options c) "tokenBalance" ≠ JNum 0)
  ∧ (∀ c, c ∈ tokens → is_Some (oget cmap (collectibleIndex c))).
Proof.
  intros Hsel Hget.
  destruct (getCustomNfts_spec E C l forceUpdateStore Hsel) as [C'' Hspec].
  rewrite Hspec in Hget. inversion Hget; subst; clear Hget.
  assert (∀ c, c ∈ omap (resolveCustomNft E C)
                     (filter (λ x, network x = getNetworkNameFromNetworkCode E) l) →
               oread (options c) "tokenBalance" ≠ JNum 0) as Hbal.
  { intros c Hc. apply list_elem_of_omap in Hc as (x & _ & Hx).
    apply resolveCustomNft_Some in Hx as (b & _ & Hb & -> & _). done. }
  split; [done|]. split; [|split; [|split; [|split; [done|split]]]].
  - intros x Hx. unfold resolveCustomNft. by rewrite Hx.
  - intros x Hx. unfold resolveCustomNft. by rewrite Hx.
  - intros x Hn Hm. unfold resolveCustomNft.
    destruct (fetchNftBalance E _ _ _ _) as [b|]; simpl; [|done].
    destruct (strict_eq b (JNum 0)); [done|]. rewrite Hm.
    destruct (truthy (description x)), (truthy (nft_image_link x)), (truthy (nft_name x));
      done.
  - intros k c Hk. apply oget_Some_elem, getObject_elem in Hk as [Hin Hkey]. auto.
  - intros c Hc. destruct (getObject_key_present collectibleIndex _ c Hc) as [v Hv].
    exists v. apply oget_elem_NoDup; [apply getObject_NoDup | done].
Qed.

Lemma custom_failures_omit_one_entry_witness :
  [Sample.owned_collectible; Sample.other_collectible]
  = omap (resolveCustomNft Sample.world Sample.detector)
      (filter (λ x, network x = getNetworkNameFromNetworkCode Sample.world)
         [Sample.owned_custom; Sample.sold_custom; Sample.other_custom])
  ∧ resolveCustomNft Sample.world Sample.detector Sample.sold_custom = None.
Proof.
  edestruct (custom_failures_omit_one_entry Sample.world Sample.detector
               [Sample.owned_custom; Sample.sold_custom; Sample.other_custom] false)
    as (Htokens & Hzero & _).
  - simpl. discriminate.
  - lazy. reflexivity.
  - split; [exact Htokens | apply Hzero; reflexivity].
Defined.

(** *** The per-cycle merge *)

Lemma pushOpensea_spec cm om cvm fa :
  pushOpensea cm om cvm fa = fa ++ openseaPart cm om cvm.
Proof.
  unfold pushOpensea, openseaPart. generalize (okeys om) as ks. intros ks. revert fa.
  induction ks as [|x ks IH]; intros fa; simpl; [by rewrite app_nil_r|].
  rewrite IH. destruct (oget cm x); simpl; [done|].
  destruct (oget om x); simpl; [|done].
  destruct (oget cvm x); simpl; by rewrite <- app_assoc.
Qed.

Lemma pushCovalent_spec cm cvm fa :
  pushCovalent cm cvm fa = fa ++ covalentPart cm cvm.
Proof.
  unfold pushCovalent, covalentPart. generalize (okeys cvm) as ks. intros ks. revert fa.
  induction ks as [|x ks IH]; intros fa; simpl; [by rewrite app_nil_r|].
  rewrite IH. destruct (oget cm x); simpl; [done|].
  destruct (oget cvm x); simpl; [|done]. by rewrite <- app_assoc.
Qed.

Local Abbreviation keyed := (AssetController.keyed collectibleIndex).

Lemma oset_keyed (m : jsobj CollectibleDetails) c :
  keyed m → keyed (oset m (collectibleIndex c) c).
Proof.
  intros Hm k v Hin. apply oset_elem in Hin as [Hin | [-> ->]]; [by apply Hm | done].
Qed.

Lemma keyed_get (m : jsobj CollectibleDetails) k c :
  keyed m → oget m k = Some c → collectibleIndex c = k.
Proof. intros Hm Hg. by apply Hm, oget_Some_elem. Qed.

Lemma covalentToken_keyed p item s nft :
  keyed (collectiblesMap s) → keyed (collectiblesMap (covalentToken p item s nft)).
Proof.
  intros Hs. unfold covalentToken.
  destruct (includes "erc1155" (supports_erc nft)); simpl; by apply oset_keyed.
Qed.

Lemma covalent_loop_keyed p item nfts s :
  keyed (collectiblesMap s) →
  keyed (collectiblesMap (fold_left (covalentToken p item) nfts s)).
Proof.
  revert s. induction nfts as [|nft nfts IH]; intros s Hs; simpl; [done|].
  by apply IH, covalentToken_keyed.
Qed.

Lemma covalentItem_keyed p acc item : keyed acc.2 → keyed (covalentItem p acc item).2.
Proof.
  intros Hacc. unfold covalentItem. destruct (strict_eq (type item) (JStr "nft")); [|done].
  destruct (nft_data item) as [[|nft nfts]|]; try done.
  by apply covalent_loop_keyed.
Qed.

Lemma detectCollectiblesFromCovalent_keyed E C network :
  keyed (detectCollectiblesFromCovalent E C network).2.2.
Proof.
  unfold detectCollectiblesFromCovalent.
  destruct (String.eqb (selectedAddress C) ""); simpl; [apply keyed_nil|].
  generalize (getOwnerCollectibles_covalent E
                (set_assetController C
                   (AssetController.setSelectedAddress (store_env E) (assetController C)
                      (selectedAddress C)))) as items.
  intros items.
  assert (∀ acc, keyed acc.2 → keyed (fold_left (covalentItem (protocolPrefixOf E network))
                                        items acc).2) as H.
  { induction items as [|it items IH]; intros acc Hacc; simpl; [done|].
    by apply IH, covalentItem_keyed. }
  apply H, keyed_nil.
Qed.

Lemma openseaAsset_map E acc a :
  marketplace_map acc.2 → marketplace_map (openseaAsset E acc a).2.
Proof.
  intros [Hk Hf]. unfold openseaAsset.
  destruct (toLowerCase <$> schema_name (asset_contract a)) as [st|]; [|done].
  destruct (includes st (SUPPORTED_NFT_STANDARDS E)); [|done]. simpl.
  split; [by apply oset_keyed|].
  intros k v Hin. apply oset_elem in Hin as [Hin | [-> ->]]; [by eapply Hf | done].
Qed.

Lemma detectCollectiblesFromOpensea_map E C :
  marketplace_map (detectCollectiblesFromOpensea E C).2.2.
Proof.
  assert (marketplace_map []) as Hnil.
  { split; [apply keyed_nil|]. intros ?? H. by apply elem_of_nil in H. }
  unfold detectCollectiblesFromOpensea.
  destruct (negb (isMainnet E) && negb (isMatic E)); [done|].
  destruct (String.eqb (selectedAddress C) ""); simpl; [done|].
  generalize (getOwnerCollectibles_opensea E
                (set_assetController C
                   (AssetController.setSelectedAddress (store_env E) (assetController C)
                      (selectedAddress C)))) as items.
  intros items.
  assert (∀ acc, marketplace_map acc.2 →
                 marketplace_map (fold_left (openseaAsset E) items acc).2) as H.
  { induction items as [|it items IH]; intros acc Hacc; simpl; [done|].
    by apply IH, openseaAsset_map. }
  by apply H.
Qed.

Lemma getCustomNfts_map E C customNfts force C' tokens cmap :
  getCustomNfts E C customNfts force = Some (C', (tokens, cmap)) →
  keyed cmap ∧ ∀ k c, oget cmap k = Some c → c ∈ tokens.
Proof.
  destruct (decide (selectedAddress C = "")) as [Hsel | Hsel].
  - unfold getCustomNfts. rewrite Hsel. simpl. intros [= <- <- <-].
    split; [apply keyed_nil | done].
  - destruct customNfts as [l|].
    + destruct (getCustomNfts_spec E C l force Hsel) as [C'' ->].
      intros [= <- <- <-]. split; [apply getObject_keyed|].
      intros k c Hk. by apply oget_Some_elem, getObject_elem in Hk as [? _].
    + unfold getCustomNfts. apply String.eqb_neq in Hsel. by rewrite Hsel.
Qed.

(** The shape of a cycle that reaches the store. *)
Lemma collect_shape E C C' cycle :
  collect E C = (C', Some cycle) →
  keyed (customCollectiblesMap cycle)
  ∧ (∀ k c, oget (customCollectiblesMap cycle) k = Some c → c ∈ customNftArr cycle)
  ∧ marketplace_map (openseaCollectiblesMap cycle)
  ∧ keyed (covalentCollectiblesMap cycle)
  ∧ finalArr cycle
    = customNftArr cycle
      ++ fromProviders E (customCollectiblesMap cycle) (openseaCollectiblesMap cycle)
           (covalentCollectiblesMap cycle).
Proof.
  unfold collect, fromProviders. simpl.
  destruct (_preferencesStore C) as [state|]; [|done].
  destruct (getCustomNfts E _ _ false) as [[C1 [arr cm]]|] eqn:Hc; [|done].
  apply getCustomNfts_map in Hc as [Hk Hin].
  destruct (isMainnet E || isMatic E).
  - pose proof (detectCollectiblesFromOpensea_map E C1) as Hos.
    destruct (detectCollectiblesFromOpensea E C1) as [C2 [l2 om]].
    pose proof (detectCollectiblesFromCovalent_keyed E C2 (getNetworkNameFromNetworkCode E))
      as Hcov.
    destruct (detectCollectiblesFromCovalent E C2 _) as [C3 [l3 cvm]].
    intros [= <- <-]. simpl in *.
    repeat split; try done; try apply Hos.
    destruct (0 <? length (okeys om))%nat;
      [apply pushOpensea_spec | apply pushCovalent_spec].
  - pose proof (detectCollectiblesFromCovalent_keyed E C1 (getNetworkNameFromNetworkCode E))
      as Hcov.
    destruct (detectCollectiblesFromCovalent E C1 _) as [C3 [l3 cvm]].
    intros [= <- <-]. simpl in *.
    repeat split; try done; try apply pushCovalent_spec.
    + apply keyed_nil.
    + intros ?? H. by apply elem_of_nil in H.
Qed.

Lemma deepmerge_index c o : collectibleIndex (deepmerge c o) = collectibleIndex o.
Proof. reflexivity. Qed.

(** Every provider element of [finalArr] has a key that the custom map
    lacks, and on the marketplace branch that key is a marketplace key. *)
Lemma openseaPart_elem cm om cvm e :
  keyed om → e ∈ openseaPart cm om cvm →
  oget cm (collectibleIndex e) = None ∧ collectibleIndex e ∈ okeys om.
Proof.
  intros Hom. unfold openseaPart. rewrite list_elem_of_omap. intros (x & Hx & He).
  destruct (oget cm x) eqn:Hc; [done|].
  destruct (oget om x) as [o|] eqn:Ho; [|done].
  pose proof (keyed_get _ _ _ Hom Ho) as Hidx.
  destruct (oget cvm x); inversion He; subst e; rewrite ?deepmerge_index, Hidx; done.
Qed.

Lemma covalentPart_elem cm cvm e :
  keyed cvm → e ∈ covalentPart cm cvm → oget cm (collectibleIndex e) = None.
Proof.
  intros Hcv. unfold covalentPart. rewrite list_elem_of_omap. intros (x & Hx & He).
  destruct (oget cm x) eqn:Hc; [done|].
  destruct (oget cvm x) as [c|] eqn:Ho; [|done].
  inversion He; subst e. by rewrite (keyed_get _ _ _ Hcv Ho).
Qed.

(** C1. In a cycle that reaches the store, the array passed to
    [addCollectibles] is the custom array followed by the provider
    elements; for a key of the custom map the custom collectible stored
    under it is in that array as it is, and no provider element (of the
    contract indexer, of the marketplace, or merged from both) has that
    key. *)
Theorem custom_entry_overrides_providers E C C' cycle k c :
  collect E C = (C', Some cycle) →
  oget (customCollectiblesMap cycle) k = Some c →
  collectibleIndex c = k
  ∧ c ∈ finalArr cycle
  ∧ finalArr cycle
    = customNftArr cycle
      ++ fromProviders E (customCollectiblesMap cycle) (openseaCollectiblesMap cycle)
           (covalentCollectiblesMap cycle)
  ∧ ∀ e, e ∈ fromProviders E (customCollectiblesMap cycle) (openseaCollectiblesMap cycle)
               (covalentCollectiblesMap cycle) →
         collectibleIndex e ≠ k.
Proof.
  intros Hcollect Hk.
  apply collect_shape in Hcollect as (Hc & Hin & [Hos _] & Hcov & Hfinal).
  split; [by apply (keyed_get _ _ _ Hc Hk)|].
  split; [rewrite Hfinal; apply elem_of_app; left; by eapply Hin|].
  split; [done|].
  intros e He Heq. subst k. unfold fromProviders in He.
  assert (oget (customCollectiblesMap cycle) (collectibleIndex e) = None) as Hnone.
  { destruct (isMainnet E || isMatic E);
      [destruct (0 <? length (okeys (openseaCollectiblesMap cycle)))%nat|].
    - by apply openseaPart_elem in He as [? _].
    - by apply covalentPart_elem in He.
    - by apply covalentPart_elem in He. }
  by rewrite Hnone in Hk.
Qed.

Lemma custom_entry_overrides_providers_witness :
  ∃ cycle, (collect Sample.market Sample.detector).2 = Some cycle
           ∧ Sample.owned_collectible ∈ finalArr cycle
           ∧ map collectibleIndex (finalArr cycle) = ["0xaa_1"; "0xdd_4"; "0xbb_7"].
Proof.
  destruct (collect Sample.market Sample.detector) as [C' [cycle|]] eqn:Hcollect;
    [|by vm_compute in Hcollect].
  exists cycle. split; [done|].
  destruct (custom_entry_overrides_providers Sample.market Sample.detector C' cycle
              "0xaa_1" Sample.owned_collectible Hcollect) as (_ & Hin & _).
  - vm_compute in Hcollect. by inversion Hcollect.
  - split; [exact Hin|]. vm_compute in Hcollect. by inversion Hcollect.
Defined.

Lemma deepmerge_options_get (target source : jsobj JsVal) f :
  NoDup (okeys source) →
  oget (deepmerge_options target source) f
  = match oget source f with Some v => Some v | None => oget target f end.
Proof.
  unfold deepmerge_options, okeys. revert target.
  induction source as [|[k v] source IH]; intros target Hnd; simpl; [done|].
  apply NoDup_cons in Hnd as [Hk Hnd]. rewrite IH by done.
  destruct (String.eqb k f) eqn:Hkf.
  - apply String.eqb_eq in Hkf. subst f.
    assert (oget source k = None) as -> by by apply oget_None_keys.
    apply oget_oset_eq.
  - apply String.eqb_neq in Hkf. destruct (oget source f); [done|].
    by apply oget_oset_ne.
Qed.

Lemma openseaFields_NoDup : NoDup openseaFields.
Proof. apply (bool_decide_unpack _). by vm_compute. Qed.

(** C2, as the code has it. On a network where both providers run and the
    marketplace map is not empty: the provider elements of the final array
    are exactly one per marketplace key that the custom map lacks, so a key
    that only the contract indexer reported is not in the array; for a key
    of both providers the element is the deep merge, in which each of the
    ten marketplace properties has the marketplace value, empty or not,
    and any other property ([contractFallbackLogo], [tokenBalance]) has the
    value of the contract indexer. *)
Theorem marketplace_keys_take_precedence E C C' cycle :
  collect E C = (C', Some cycle) →
  isMainnet E || isMatic E = true →
  okeys (openseaCollectiblesMap cycle) ≠ [] →
  finalArr cycle
  = customNftArr cycle
    ++ openseaPart (customCollectiblesMap cycle) (openseaCollectiblesMap cycle)
         (covalentCollectiblesMap cycle)
  ∧ (∀ e, e ∈ openseaPart (customCollectiblesMap cycle) (openseaCollectiblesMap cycle)
                (covalentCollectiblesMap cycle) →
          collectibleIndex e ∈ okeys (openseaCollectiblesMap cycle)
          ∧ oget (customCollectiblesMap cycle) (collectibleIndex e) = None)
  ∧ ∀ x o, oget (openseaCollectiblesMap cycle) x = Some o →
           oget (customCollectiblesMap cycle) x = None →
           match oget (covalentCollectiblesMap cycle) x with
           | Some c =>
               deepmerge c o ∈ finalArr cycle
               ∧ collectibleIndex (deepmerge c o) = x
               ∧ (∀ f, f ∈ openseaFields →
                       oread (options (deepmerge c o)) f = oread (options o) f)
               ∧ (∀ f, f ∉ openseaFields →
                       oread (options (deepmerge c o)) f = oread (options c) f)
           | None => o ∈ finalArr cycle
           end.
Proof.
  intros Hcollect Hnet Hne.
  apply collect_shape in Hcollect as (Hc & Hin & [Hos Hfields] & Hcov & Hfinal).
  unfold fromProviders in Hfinal. rewrite Hnet in Hfinal.
  assert ((0 <? length (okeys (openseaCollectiblesMap cycle)))%nat = true) as Hpos.
  { apply Nat.ltb_lt. destruct (okeys (openseaCollectiblesMap cycle)); [done | simpl; lia]. }
  rewrite Hpos in Hfinal. split; [done|]. split.
  - intros e He. apply openseaPart_elem in He as [? ?]; done.
  - intros x o Ho Hcx.
    assert (∀ e, (match oget (covalentCollectiblesMap cycle) x with
                  | Some c => deepmerge c o
                  | None => o
                  end) = e → e ∈ finalArr cycle) as Hmem.
    { intros e He. rewrite Hfinal. apply elem_of_app. right.
      unfold openseaPart. apply list_elem_of_omap. exists x. split.
      - apply list_elem_of_fmap. exists (x, o). split; [done | by apply oget_Some_elem].
      - rewrite Hcx, Ho. by rewrite He. }
    destruct (oget (covalentCollectiblesMap cycle) x) as [c|] eqn:Hcv; [|by apply Hmem].
    pose proof (Hfields x o (oget_Some_elem _ _ _ Ho)) as Hkeys.
    split; [by apply Hmem|]. split; [by apply (keyed_get _ _ _ Hos Ho)|].
    assert (NoDup (okeys (options o))) as Hnd by (rewrite Hkeys; apply openseaFields_NoDup).
    split; intros f Hf; unfold oread; simpl; rewrite deepmerge_options_get by done.
    + destruct (oget (options o) f) eqn:Hof; [done|].
      apply oget_None_keys in Hof. by rewrite Hkeys in Hof.
    + assert (oget (options o) f = None) as -> by (apply oget_None_keys; by rewrite Hkeys).
      done.
Qed.

Lemma marketplace_keys_take_precedence_witness :
  ∃ cycle, (collect Sample.market Sample.detector).2 = Some cycle
           ∧ finalArr cycle
             = customNftArr cycle
               ++ openseaPart (customCollectiblesMap cycle) (openseaCollectiblesMap cycle)
                    (covalentCollectiblesMap cycle).
Proof.
  destruct (collect Sample.market Sample.detector) as [C' [cycle|]] eqn:Hcollect;
    [|by vm_compute in Hcollect].
  exists cycle. split; [done|].
  apply (marketplace_keys_take_precedence Sample.market Sample.detector C' cycle Hcollect).
  - reflexivity.
  - vm_compute in Hcollect. inversion Hcollect; subst cycle. by vm_compute.
Defined.

(** The claim of C2 fails on its last part, and its middle part needs the
    reading above: the marketplace returns two tokens, the contract indexer
    alone reports token 9 of [0xEE], which no custom entry covers, and the
    final array has no element for it; for token 7 of [0xBB], which both
    report, the marketplace left [description] empty and the merged
    element has the empty value, not the description of the indexer. *)
Lemma indexer_only_key_counterexample :
  ∃ cycle, (collect Sample.market Sample.detector).2 = Some cycle
    ∧ okeys (openseaCollectiblesMap cycle) = ["0xaa_1"; "0xbb_7"]
    ∧ okeys (covalentCollectiblesMap cycle) = ["0xbb_7"; "0xee_9"; "0xaa_1"]
    ∧ oget (customCollectiblesMap cycle) "0xee_9" = None
    ∧ map collectibleIndex (finalArr cycle) = ["0xaa_1"; "0xdd_4"; "0xbb_7"]
    ∧ (λ c, oread (options c) "description")
        <$> oget (covalentCollectiblesMap cycle) "0xbb_7"
      = Some (JStr "from the indexer")
    ∧ (λ c, (collectibleIndex c, oread (options c) "description"))
        <$> last (finalArr cycle)
      = Some ("0xbb_7", JNull).
Proof. eexists. vm_compute. repeat split. Qed.

End DetectionFacts.

(** ** The scheduler *)

Module SchedulerFacts.
Import AssetsDetection.

Lemma getCustomNfts_handle E C customNfts force C' r :
  getCustomNfts E C customNfts force = Some (C', r) → _handle C' = _handle C.
Proof.
  unfold getCustomNfts. destruct (String.eqb (selectedAddress C) ""); [by intros [= <- _]|].
  destruct customNfts as [l|]; simpl; [|done].
  destruct (fold_left _ _ _) as [a m]. destruct force; by intros [= <- _].
Qed.

Lemma detectCollectiblesFromOpensea_handle E C :
  _handle (detectCollectiblesFromOpensea E C).1 = _handle C.
Proof.
  unfold detectCollectiblesFromOpensea.
  destruct (negb (isMainnet E) && negb (isMatic E)); [done|].
  by destruct (String.eqb (selectedAddress C) "").
Qed.

Lemma detectCollectiblesFromCovalent_handle E C network :
  _handle (detectCollectiblesFromCovalent E C network).1 = _handle C.
Proof.
  unfold detectCollectiblesFromCovalent. by destruct (String.eqb (selectedAddress C) "").
Qed.

Lemma collect_handle E C : _handle (collect E C).1 = _handle C.
Proof.
  unfold collect. simpl.
  destruct (_preferencesStore C) as [state|]; [|done].
  destruct (getCustomNfts E _ _ false) as [[C1 [arr cm]]|] eqn:Hc; [|done].
  apply getCustomNfts_handle in Hc. simpl in Hc.
  destruct (isMainnet E || isMatic E).
  - pose proof (detectCollectiblesFromOpensea_handle E C1) as H1.
    destruct (detectCollectiblesFromOpensea E C1) as [C2 [l2 om]].
    pose proof (detectCollectiblesFromCovalent_handle E C2
                  (getNetworkNameFromNetworkCode E)) as H2.
    destruct (detectCollectiblesFromCovalent E C2 _) as [C3 [l3 cvm]].
    simpl in *. congruence.
  - pose proof (detectCollectiblesFromCovalent_handle E C1
                  (getNetworkNameFromNetworkCode E)) as H2.
    destruct (detectCollectiblesFromCovalent E C1 _) as [C3 [l3 cvm]].
    simpl in *. congruence.
Qed.

Lemma detectAssets_handle E C : _handle (detectAssets E C) = _handle C.
Proof.
  unfold detectAssets, detectCollectibles.
  destruct (supportedNetwork E _); [|done].
  pose proof (collect_handle E C) as H.
  by destruct (collect E C) as [C1 [cycle|]].
Qed.

Lemma set_interval_one_timer E C W interval :
  one_timer (C, W) → one_timer (set_interval E C W interval).
Proof.
  intros [Hlive Hfresh]. simpl in *. unfold set_interval.
  assert (∀ h, h ∉ live (match _handle C with
                         | Some h0 => clearInterval W h0
                         | None => W
                         end)) as Hcleared.
  { intros h Hh. destruct (_handle C) as [h0|] eqn:Hc; simpl in Hh.
    - apply elem_of_difference in Hh as [Hh Hne]. apply Hlive in Hh.
      assert (h = h0) by congruence. set_solver.
    - apply Hlive in Hh. congruence. }
  assert (next_id (match _handle C with
                   | Some h0 => clearInterval W h0
                   | None => W
                   end) = next_id W) as Hnext by by destruct (_handle C).
  destruct (interval =? 0)%Z; [|destruct (isMain E)]; simpl.
  - split; simpl; [intros h Hh; by apply Hcleared in Hh | by rewrite Hnext].
  - rewrite Hnext. split; simpl.
    + intros h Hh. apply elem_of_union in Hh as [Hh | Hh]; [|by apply Hcleared in Hh].
      apply elem_of_singleton in Hh. by subst h.
    + intros h [= <-]. lia.
  - split; simpl; [intros h Hh; by apply Hcleared in Hh | by rewrite Hnext].
Qed.

Lemma restartAssetDetection_one_timer E C W :
  one_timer (C, W) → one_timer (restartAssetDetection E C W).
Proof.
  intros H. unfold restartAssetDetection.
  destruct (String.eqb (selectedAddress C) ""); [done|].
  apply set_interval_one_timer. destruct H as [H1 H2].
  split; simpl in *; intros h; rewrite detectAssets_handle; auto.
Qed.

Lemma construct_one_timer E o : one_timer (construct E no_timers o).
Proof.
  unfold construct.
  pose proof (set_interval_one_timer E
    {| selectedAddress := ""; currentNetwork := None; selectedCustomNfts := [];
       _preferencesStore := None; _handle := None;
       assetController := opt_assetController o |} no_timers
    (if (opt_interval o =? 0)%Z then DEFAULT_INTERVAL else opt_interval o)) as H.
  destruct (set_interval _ _ _ _) as [this W]. apply H.
  split; simpl; [set_solver | done].
Qed.

Lemma reachable_one_timer s : sched_reachable s → one_timer s.
Proof.
  induction 1 as [E o | s s' _ IH Hstep].
  - apply construct_one_timer.
  - destruct Hstep as [E C W interval | E C W address | E C W | C W | E C W h C' Htick].
    + by apply set_interval_one_timer.
    + unfold startAssetDetection. by apply restartAssetDetection_one_timer.
    + by apply restartAssetDetection_one_timer.
    + exact IH.
    + unfold tick in Htick. case_bool_decide; [|done]. inversion Htick; subst C'.
      destruct IH as [H1 H2]. split; simpl in *; intros h'; rewrite detectAssets_handle; auto.
Qed.

(** C8, as the code has it. In every state the controller reaches, at
    most one timer is armed, and assigning an interval cancels the timer
    that [_handle] names before anything else; [stopAssetDetection]
    clears the active address and leaves the timers as they are, so a
    timer that was armed still fires after it. *)
Theorem one_timer_and_stop_keeps_it C W :
  sched_reachable (C, W) →
  (∀ h1 h2, h1 ∈ live W → h2 ∈ live W → h1 = h2)
  ∧ (∀ E interval h, _handle C = Some h → h ∉ live (set_interval E C W interval).2)
  ∧ (∀ E interval, one_timer (set_interval E C W interval))
  ∧ selectedAddress (stopAssetDetection C) = ""
  ∧ _handle (stopAssetDetection C) = _handle C
  ∧ (∀ E h, h ∈ live W → tick E (stopAssetDetection C) W h
                          = Some (detectAssets E (stopAssetDetection C))).
Proof.
  intros Hreach. pose proof (reachable_one_timer _ Hreach) as [Hlive Hfresh]. simpl in *.
  split; [|split; [|split; [|split; [done|split; [done|]]]]].
  - intros h1 h2 H1 H2. apply Hlive in H1, H2. congruence.
  - intros E interval h Hh. unfold set_interval. rewrite Hh.
    destruct (interval =? 0)%Z; [|destruct (isMain E)]; simpl; try set_solver.
    apply Hfresh in Hh. intros Hin. apply elem_of_union in Hin as [Hin | Hin].
    + apply elem_of_singleton in Hin. lia.
    + set_solver.
  - intros E interval. by apply set_interval_one_timer.
  - intros E h Hh. unfold tick. by rewrite bool_decide_eq_true_2.
Qed.

Lemma one_timer_and_stop_keeps_it_witness :
  let s := startAssetDetection Sample.world Sample.constructed.1 Sample.constructed.2
             "0xuser" in
  (∀ h1 h2, h1 ∈ live s.2 → h2 ∈ live s.2 → h1 = h2)
  ∧ selectedAddress (stopAssetDetection s.1) = "".
Proof.
  simpl.
  destruct (one_timer_and_stop_keeps_it
              (startAssetDetection Sample.world Sample.constructed.1 Sample.constructed.2
                 "0xuser").1
              (startAssetDetection Sample.world Sample.constructed.1 Sample.constructed.2
                 "0xuser").2) as (Hone & _ & _ & Hstop & _).
  - rewrite <- surjective_pairing.
    eapply sched_next; [|apply sched_start].
    rewrite <- surjective_pairing. apply sched_new.
  - split; [exact Hone | exact Hstop].
Defined.

(** The claim of C8 about [stopAssetDetection] fails: after the
    constructor, a start and a stop, the address is cleared but the timer
    armed by the start is still armed and its callback runs. *)
Lemma stop_leaves_timer_armed_counterexample :
  let s := startAssetDetection Sample.world Sample.constructed.1 Sample.constructed.2
             "0xuser" in
  let stopped := stopAssetDetection s.1 in
  selectedAddress stopped = ""
  ∧ _handle stopped = Some 2
  ∧ elements (live s.2) = [2]
  ∧ is_Some (tick Sample.world stopped s.2 2).
Proof. vm_compute. repeat split. eauto. Qed.

End SchedulerFacts.

(** ** Further properties of the asset controller *)

Module StoreExtra.
Import AssetController StoreMore StoreFacts.

Lemma project_insert_other {V} (all : gmap string (gmap string (list V))) a n a' n'
  (l : list V) :
  (a', n') ≠ (a, n) →
  project (<[a := <[n := l]> (default ∅ (all !! a))]> all) a' n' = project all a' n'.
Proof.
  intros Hne. unfold project. destruct (decide (a = a')) as [<- | Ha].
  - rewrite lookup_insert_eq. simpl.
    assert (n ≠ n') as Hn by congruence. rewrite lookup_insert_ne by done.
    destruct (all !! a); simpl; [done | by rewrite lookup_empty].
  - by rewrite lookup_insert_ne.
Qed.

(** X1. A call of [addCollectibles] writes the scope (selected address, active
    network) and nothing else: the lists of every other scope, all tokens
    and the selected address are as before. *)
Theorem addCollectibles_leaves_other_scopes E A items detectFromApi address network :
  (address, network) ≠ (selectedAddress A, networkType E) →
  let A' := addCollectibles E A items detectFromApi in
  project (allCollectibles (store A')) address network
    = project (allCollectibles (store A)) address network
  ∧ project (allCollectibleContracts (store A')) address network
    = project (allCollectibleContracts (store A)) address network
  ∧ allTokens (store A') = allTokens (store A)
  ∧ tokens (store A') = tokens (store A)
  ∧ selectedAddress A' = selectedAddress A.
Proof.
  intros Hne. simpl. unfold addCollectibles.
  destruct (addCollectibles_try E A items detectFromApi) as [st'|] eqn:Ht; [|done]. simpl.
  apply addCollectibles_try_shape in Ht
    as (nc & nk & _ & _ & _ & _ & Hac & Hak & Hat & Ht).
  rewrite Hac, Hak, Hat, Ht. by rewrite !project_insert_other.
Qed.

Lemma addCollectibles_leaves_other_scopes_witness :
  let A1 := addCollectibles Sample.chain Sample.fresh [Sample.cat1] false in
  let A2 := addCollectibles Sample.chain
              (setSelectedAddress Sample.chain A1 "0xother") [Sample.dog2] false in
  project (allCollectibles (store A2)) "0xuser" "mainnet" = [Sample.stored_cat1].
Proof.
  simpl.
  destruct (addCollectibles_leaves_other_scopes Sample.chain
              (setSelectedAddress Sample.chain
                 (addCollectibles Sample.chain Sample.fresh [Sample.cat1] false) "0xother")
              [Sample.dog2] false "0xuser" "mainnet") as (H & _).
  - discriminate.
  - rewrite H. by vm_compute.
Defined.

(** X2. What a completed call stored for a scope is what the view shows after
    the user switches to any other address and back on the same network. *)
Theorem switch_away_and_back_restores_view E E' A items detectFromApi other :
  is_Some (addCollectibles_try E A items detectFromApi) →
  let A1 := addCollectibles E A items detectFromApi in
  let A2 := setSelectedAddress E (setSelectedAddress E' A1 other) (selectedAddress A) in
  collectibles (store A2) = collectibles (store A1)
  ∧ collectibleContracts (store A2) = collectibleContracts (store A1)
  ∧ allCollectibles (store A2) = allCollectibles (store A1)
  ∧ allCollectibleContracts (store A2) = allCollectibleContracts (store A1)
  ∧ selectedAddress A2 = selectedAddress A1.
Proof.
  intros [st' Hst']. simpl. rewrite (addCollectibles_completed _ _ _ _ _ Hst'). simpl.
  apply addCollectibles_try_shape in Hst'
    as (nc & nk & _ & _ & _ & _ & Hac & Hak & _).
  rewrite Hac, Hak. by rewrite !project_insert.
Qed.

Lemma switch_away_and_back_restores_view_witness :
  let A1 := addCollectibles Sample.chain Sample.fresh [Sample.cat1] false in
  collectibles
    (store (setSelectedAddress Sample.chain
              (setSelectedAddress Sample.chain A1 "0xother") "0xuser"))
  = [Sample.stored_cat1].
Proof.
  simpl.
  destruct (switch_away_and_back_restores_view Sample.chain Sample.chain Sample.fresh
              [Sample.cat1] false "0xother") as (H & _).
  - vm_compute. eauto.
  - simpl in H. rewrite H. by vm_compute.
Defined.

(** *** The first loop *)

Lemma schedule_rejected p it : accepted it = false → schedule p it = p.
Proof. unfold schedule, accepted. by intros ->. Qed.

Lemma schedule_filter items p :
  fold_left schedule (filter (λ it, accepted it = true) items) p
  = fold_left schedule items p.
Proof.
  revert p. induction items as [|it items IH]; intros p; [done|].
  rewrite filter_cons. destruct (decide (accepted it = true)) as [Ha | Ha]; simpl.
  - apply IH.
  - rewrite schedule_rejected by by destruct (accepted it). apply IH.
Qed.

(** X3. Items without a token id or without a contract address are ignored:
    the call does what it does on the other items alone. *)
Theorem addCollectibles_ignores_incomplete_items E A items detectFromApi :
  addCollectibles E A items detectFromApi
  = addCollectibles E A (filter (λ it, accepted it = true) items) detectFromApi.
Proof.
  unfold addCollectibles, addCollectibles_try. by rewrite schedule_filter.
Qed.

Lemma schedule_seen p it :
  contractAddress it ∈ collectibleTempIndex p →
  contractAddress it +:+ "_" +:+ tokenID it ∈ collectibleTempIndex p →
  schedule p it = p.
Proof.
  intros Hc Hi. unfold schedule.
  destruct (negb (tokenID it =? "")%string && negb (contractAddress it =? "")%string);
    [|done].
  rewrite (bool_decide_eq_true_2 _ Hc). by rewrite (bool_decide_eq_true_2 _ Hi).
Qed.

Lemma schedule_mono p it : collectibleTempIndex p ⊆ collectibleTempIndex (schedule p it).
Proof.
  unfold schedule.
  destruct (negb (tokenID it =? "")%string && negb (contractAddress it =? "")%string);
    [|done].
  repeat case_bool_decide; simpl; set_solver.
Qed.

Lemma schedule_records p it :
  accepted it = true →
  contractAddress it ∈ collectibleTempIndex (schedule p it)
  ∧ contractAddress it +:+ "_" +:+ tokenID it ∈ collectibleTempIndex (schedule p it).
Proof.
  unfold schedule, accepted. intros ->.
  repeat case_bool_decide; simpl in *; set_solver.
Qed.

Lemma fold_schedule_mono items p :
  collectibleTempIndex p ⊆ collectibleTempIndex (fold_left schedule items p).
Proof.
  revert p. induction items as [|it items IH]; intros p; simpl; [done|].
  etrans; [apply (schedule_mono p it) | apply IH].
Qed.

(** X4. Of several items with one contract address and token id, spelled the
    same, only the first counts: a later one is ignored, whatever its
    options. *)
Theorem addCollectibles_first_occurrence_wins E A before x between x' after detectFromApi :
  contractAddress x' = contractAddress x → tokenID x' = tokenID x →
  addCollectibles E A (before ++ x :: between ++ x' :: after) detectFromApi
  = addCollectibles E A (before ++ x :: between ++ after) detectFromApi.
Proof.
  intros Hc Ht. unfold addCollectibles, addCollectibles_try.
  assert (fold_left schedule (before ++ x :: between ++ x' :: after) no_pending
          = fold_left schedule (before ++ x :: between ++ after) no_pending) as ->; [|done].
  rewrite !fold_left_app. simpl. rewrite !fold_left_app. simpl. f_equal.
  destruct (accepted x') eqn:Ha; [|by apply schedule_rejected].
  assert (accepted x = true) as Hax by (unfold accepted in *; by rewrite <- Hc, <- Ht).
  destruct (schedule_records (fold_left schedule before no_pending) x Hax) as [H1 H2].
  pose proof (fold_schedule_mono between
                (schedule (fold_left schedule before no_pending) x)) as Hm.
  apply schedule_seen; rewrite ?Hc, ?Ht; set_solver.
Qed.

Lemma addCollectibles_first_occurrence_wins_witness :
  addCollectibles Sample.chain Sample.fresh
    [Sample.cat1; Sample.dog2; Sample.details "0xaa" "1" "Renamed" "erc1155" (JNum 9)] false
  = addCollectibles Sample.chain Sample.fresh [Sample.cat1; Sample.dog2] false.
Proof.
  apply (addCollectibles_first_occurrence_wins Sample.chain Sample.fresh
           [] Sample.cat1 [Sample.dog2]
           (Sample.details "0xaa" "1" "Renamed" "erc1155" (JNum 9)) [] false);
    reflexivity.
Defined.

(** *** What the store holds *)

Lemma spread_info_fields c i :
  cl_address (spread_info c i) = cl_address c
  ∧ cl_tokenId (spread_info c i) = cl_tokenId c
  ∧ cl_collectibleIndex (spread_info c i) = cl_collectibleIndex c.
Proof. by destruct i. Qed.

Lemma normalizeCollectible_own_index E A x d c :
  _normalizeCollectibleDetails E A x d = Some c →
  cl_collectibleIndex c = cl_address c +:+ "_" +:+ cl_tokenId c.
Proof.
  unfold _normalizeCollectibleDetails.
  destruct (checksum_if_address E (ca_address x)) as [a|]; simpl; [|done].
  intros H.
  repeat match type of H with
         | context [if ?b then _ else _] => destruct b
         | context [match ?o with Some _ => _ | None => _ end] => destruct o
         end;
    inversion H; subst; simpl;
    try (destruct (spread_info_fields
                     {| cl_address := a; cl_tokenId := ca_tokenID x; cl_name := ca_name x;
                        cl_image := ca_image x; cl_description := ca_description x;
                        cl_standard := ca_standard x;
                        cl_tokenBalance := ca_tokenBalance x;
                        cl_collectibleIndex := a +:+ "_" +:+ ca_tokenID x |}
                     (getCollectibleInfo E A (ca_address x) (ca_tokenID x) d))
           as (-> & -> & ->));
    done.
Qed.

Lemma kept_collectible_sound E A x d c :
  _normalizeCollectibleDetails E A x d = Some c → keep_collectible c = true → sound c.
Proof.
  intros Hn Hk. unfold keep_collectible in Hk.
  apply andb_true_iff in Hk as [Hk Hb]. apply andb_true_iff in Hk as [Hname Hstd].
  repeat split; try done. by eapply normalizeCollectible_own_index.
Qed.

Lemma project_Forall_sound st address network :
  collectibles_sound st → Forall sound (project (allCollectibles st) address network).
Proof.
  intros [_ Hall]. unfold project.
  destruct (allCollectibles st !! address) as [byNetwork|] eqn:Ha; simpl; [|done].
  destruct (byNetwork !! network) as [l|] eqn:Hn; simpl; [|done]. eauto.
Qed.

Lemma addCollectibles_sound E A items d :
  collectibles_sound (store A) → collectibles_sound (store (addCollectibles E A items d)).
Proof.
  intros HA. unfold addCollectibles.
  destruct (addCollectibles_try E A items d) as [st'|] eqn:Ht; [|done]. simpl.
  assert (Forall sound (collectibles st')) as Hview.
  { revert Ht. unfold addCollectibles_try.
    destruct (mapM _ (contractPromises _)) as [cs|]; simpl; [|done].
    destruct (mapM _ (collectiblePromises _)) as [ks|] eqn:Hks; simpl; [|done].
    intros [= <-]. simpl. fold_merges. apply merge_by_Forall; [apply HA|].
    apply Forall_forall. intros c Hc. apply list_elem_of_filter in Hc as [Hkeep Hc].
    apply mapM_Some_1 in Hks.
    destruct (proj1 (list_elem_of_lookup _ _) Hc) as [i Hi].
    destruct (Forall2_lookup_r _ _ _ _ _ Hks Hi) as (x & _ & Hx).
    by eapply kept_collectible_sound. }
  apply addCollectibles_try_shape in Ht as (nc & nk & _ & _ & _ & _ & _ & Hall & _).
  split; [done|]. intros a byNetwork n l. rewrite Hall.
  destruct (decide (selectedAddress A = a)) as [<- | Hne].
  - rewrite lookup_insert_eq. intros [= <-].
    destruct (decide (networkType E = n)) as [<- | Hne].
    + rewrite lookup_insert_eq. by intros [= <-].
    + rewrite lookup_insert_ne by done.
      destruct (allCollectibles (store A) !! selectedAddress A) eqn:Hs; simpl.
      * intros Hl. by eapply (proj2 HA).
      * by rewrite lookup_empty.
  - rewrite lookup_insert_ne by done. apply HA.
Qed.

(** X5. In every state the store reaches, every stored collectible, in the
    current view and in every scope, has a name, a standard and a balance
    that are not empty (so no collectible with balance 0, [null] or
    [undefined] is ever stored), and its index is its address, an
    underscore and its token id. *)
Theorem stored_collectibles_are_sound A :
  reachable A →
  Forall sound (collectibles (store A))
  ∧ ∀ address network,
      Forall sound (project (allCollectibles (store A)) address network).
Proof.
  intros HA.
  assert (collectibles_sound (store A)) as Hs.
  { induction HA as [sel | A A' HA IH Hstep].
    - split; simpl; [done|]. intros ????. by rewrite lookup_empty.
    - destruct Hstep as [E items d | E address | network].
      + by apply addCollectibles_sound.
      + split; [by apply project_Forall_sound | apply IH].
      + split; [by apply project_Forall_sound | apply IH]. }
  split; [apply Hs|]. intros a n. by apply project_Forall_sound.
Qed.

Lemma stored_collectibles_are_sound_witness :
  Forall sound
    (collectibles (store (addCollectibles Sample.chain Sample.fresh
                            [Sample.cat1; Sample.multi7] false))).
Proof.
  apply (stored_collectibles_are_sound
           (addCollectibles Sample.chain Sample.fresh [Sample.cat1; Sample.multi7] false)).
  eapply reachable_step; [apply (reachable_init "0xuser") | apply step_addCollectibles].
Defined.

(** *** The normalizers *)

(** X6. Whatever path the normalization takes, a collectible that comes out
    as ERC721 has a non-empty balance (the one it was given or fetched, or
    else 1), so that it is stored as soon as it has a name. *)
Theorem normalized_erc721_has_balance E A x detectFromApi c :
  _normalizeCollectibleDetails E A x detectFromApi = Some c →
  cl_standard c = JStr CONTRACT_TYPE_ERC721 →
  truthy (cl_tokenBalance c) = true
  ∧ keep_collectible c = truthy (cl_name c).
Proof.
  intros Hn Hs.
  assert (truthy (cl_tokenBalance c) = true) as Hb.
  { revert Hn Hs. unfold _normalizeCollectibleDetails.
    destruct (checksum_if_address E (ca_address x)) as [a|]; simpl; [|done].
    match goal with
    | |- context [if ?b then spread_info ?n ?i else _] =>
        generalize (if b then spread_info n i else n)
    end.
    intros n. destruct (truthy (cl_tokenBalance n)) eqn:Hbal; simpl.
    - by intros [= <-].
    - destruct (strict_eq (cl_standard n) (JStr CONTRACT_TYPE_ERC721)) eqn:H721.
      + by intros [= <-].
      + assert (cl_standard n ≠ JStr CONTRACT_TYPE_ERC721) as Hne.
        { unfold strict_eq in H721. by apply bool_decide_eq_false in H721. }
        destruct (strict_eq (cl_standard n) (JStr CONTRACT_TYPE_ERC1155));
          [destruct (getErc1155Balance E a (selectedAddress A) (ca_tokenID x))|];
          intros [= <-]; simpl; intros Hs; by destruct Hne. }
  split; [done|]. unfold keep_collectible. rewrite Hb, Hs. simpl.
  by rewrite !andb_true_r.
Qed.

Lemma normalized_erc721_has_balance_witness :
  (λ c, truthy (cl_tokenBalance c))
    <$> _normalizeCollectibleDetails Sample.chain Sample.fresh Sample2.cat_args true
  = Some true.
Proof.
  destruct (_normalizeCollectibleDetails Sample.chain Sample.fresh Sample2.cat_args true)
    as [c|] eqn:Hn; [|by vm_compute in Hn].
  simpl. f_equal.
  eapply (normalized_erc721_has_balance Sample.chain Sample.fresh Sample2.cat_args true c);
    [exact Hn|].
  vm_compute in Hn. by inversion Hn.
Defined.

Lemma getCollectibleContractInformation_no_probe E a d :
  checkNftStandard E a = None → getCollectibleContractInformation E a d = empty_contract.
Proof. intros H. unfold getCollectibleContractInformation. by rewrite H. Qed.

(** X7. A contract whose address does not answer the standard probe is
    rejected, unless the source supplied name, symbol and standard
    itself: its normalization is the empty object, which the second loop
    of [addCollectibles] discards. *)
Theorem unprobed_contract_is_rejected E details detectFromApi :
  checkNftStandard E (cd_contractAddress details) = None →
  truthy (cd_contractName details) && truthy (cd_contractSymbol details)
    && truthy (cd_standard details) = false →
  _normalizeContractDetails E details detectFromApi
  = (λ _, empty_contract) <$> checksum_if_address E (cd_contractAddress details)
  ∧ keep_contract empty_contract = false.
Proof.
  intros Hprobe Hincomplete. split; [|done]. unfold _normalizeContractDetails.
  destruct (checksum_if_address E (cd_contractAddress details)) as [a|]; simpl; [|done].
  rewrite Hincomplete, getCollectibleContractInformation_no_probe by done. simpl.
  by rewrite Hprobe.
Qed.

Lemma unprobed_contract_is_rejected_witness :
  _normalizeContractDetails Sample2.silent_chain
    (contractDetailsOf (Sample.details "0xaa" "1" "Cat#1" "" (JNum 1))) true
  = Some empty_contract.
Proof.
  destruct (unprobed_contract_is_rejected Sample2.silent_chain
              (contractDetailsOf (Sample.details "0xaa" "1" "Cat#1" "" (JNum 1))) true)
    as [H _]; [reflexivity | reflexivity |].
  exact H.
Defined.



(** X9. With [detectFromApi] false, as in every call the detection controller
    makes, the metadata API is not consulted: the result is the same
    whatever that API answers. *)
Theorem addCollectibles_without_api E A items api :
  addCollectibles (with_getNftMetadata E api) A items false
  = addCollectibles E A items false.
Proof. reflexivity. Qed.

(** *** Looking a collectible up with the metadata API *)

(** X10. With [detectFromApi] set, a metadata API that fails is not made up
    for: the rejection ends the lookup, which yields the empty object,
    although the chain lookups that would follow might succeed. For the
    contract the result is the empty object as well. *)
Theorem metadata_api_failure_is_not_retried E A address tokenId :
  (∀ url, getNftMetadata E url = None) →
  is_Some (NFT_SUPPORTED_NETWORKS E (networkType E)) →
  getCollectibleInfo E A address tokenId true = None
  ∧ getCollectibleContractInformation E address true = empty_contract.
Proof.
  intros Hdown [chainId Hchain]. split.
  - unfold getCollectibleInfo, getCollectibleInfoFromApi, getCollectibleApi.
    rewrite Hchain. simpl. by rewrite Hdown.
  - unfold getCollectibleContractInformation, getCollectibleContractInformationFromApi.
    destruct (checkNftStandard E address); simpl; [|done]. by rewrite Hdown.
Qed.

Lemma metadata_api_failure_is_not_retried_witness :
  getCollectibleInfo Sample2.served_chain Sample.fresh "0xaa" "1" true = None
  ∧ is_Some (getCollectibleInfo Sample2.served_chain Sample.fresh "0xaa" "1" false)
  ∧ getCollectibleContractInformation Sample2.served_chain "0xaa" true = empty_contract
  ∧ keep_contract (getCollectibleContractInformation Sample2.served_chain "0xaa" false)
    = true.
Proof.
  destruct (metadata_api_failure_is_not_retried Sample2.served_chain Sample.fresh "0xaa" "1")
    as [Hinfo Hcontract]; [done | by eexists |].
  split; [exact Hinfo|]. split; [by eexists|]. split; [exact Hcontract | reflexivity].
Defined.

(** X11. On a network without a chain id in [NFT_SUPPORTED_NETWORKS] the
    metadata API is not asked about a collectible: the lookup with
    [detectFromApi] is the lookup without it. *)
Theorem unsupported_network_skips_api E A address tokenId :
  NFT_SUPPORTED_NETWORKS E (networkType E) = None →
  getCollectibleApi E address tokenId = ""
  ∧ getCollectibleInfo E A address tokenId true
    = getCollectibleInfo E A address tokenId false.
Proof.
  intros Hnone. unfold getCollectibleInfo, getCollectibleInfoFromApi, getCollectibleApi.
  by rewrite Hnone.
Qed.

Lemma unsupported_network_skips_api_witness :
  getCollectibleInfo Sample2.testnet_chain Sample.fresh "0xaa" "1" true
  = getCollectibleInfo Sample2.testnet_chain Sample.fresh "0xaa" "1" false.
Proof.
  by apply (unsupported_network_skips_api Sample2.testnet_chain Sample.fresh "0xaa" "1").
Defined.

(** *** The views over time *)

(** X12. In every state the store goes through, the two collectible views are
    the projection of the per-scope maps at the active address and one
    network: the network of the last call or notification that touched
    them. *)
Theorem view_is_always_a_projection A :
  reachable A →
  ∃ network,
    collectibles (store A)
    = project (allCollectibles (store A)) (selectedAddress A) network
    ∧ collectibleContracts (store A)
      = project (allCollectibleContracts (store A)) (selectedAddress A) network.
Proof.
  induction 1 as [selected | A A' _ IH Hstep].
  - exists "". by split.
  - destruct Hstep as [E items d | E address | networkType].
    + unfold addCollectibles.
      destruct (addCollectibles_try E A items d) as [st'|] eqn:Htry; [|exact IH].
      apply addCollectibles_try_shape in Htry
        as (nc & ncl & _ & _ & _ & _ & Hallc & Hall & _).
      exists (AssetController.networkType E). simpl. rewrite Hall, Hallc.
      by rewrite !project_insert.
    + by exists (AssetController.networkType E).
    + by exists networkType.
Qed.

Lemma view_is_always_a_projection_witness :
  ∃ network,
    collectibles (store (addCollectibles Sample.chain Sample.fresh [Sample.cat1] false))
    = project
        (allCollectibles (store (addCollectibles Sample.chain Sample.fresh [Sample.cat1] false)))
        "0xuser" network.
Proof.
  destruct (view_is_always_a_projection
              (addCollectibles Sample.chain Sample.fresh [Sample.cat1] false))
    as (network & Hview & _).
  - eapply reachable_step; [apply (reachable_init "0xuser") | apply step_addCollectibles].
  - by exists network.
Defined.

(** *** From an item to the store *)

Lemma schedule_sources p it k :
  k ∈ collectibleTempIndex (schedule p it) →
  k ∈ collectibleTempIndex p ∨ k = contractAddress it ∨ k = itemIndex it.
Proof.
  unfold schedule, itemIndex.
  destruct (negb (tokenID it =? "")%string && negb (contractAddress it =? "")%string);
    [|by left].
  repeat case_bool_decide; simpl; set_solver.
Qed.

Lemma fold_schedule_sources items p k :
  k ∈ collectibleTempIndex (fold_left schedule items p) →
  k ∈ collectibleTempIndex p
  ∨ ∃ b, b ∈ items ∧ (k = contractAddress b ∨ k = itemIndex b).
Proof.
  revert p. induction items as [|it items IH]; intros p; simpl; [by left|].
  intros Hk. destruct (IH _ Hk) as [Hp | (b & Hb & Hkb)].
  - apply schedule_sources in Hp as [Hp | Hp]; [by left|].
    right. exists it. split; [apply list_elem_of_here | done].
  - right. exists b. split; [by apply list_elem_of_further | done].
Qed.

Lemma address_is_no_index it : contractAddress it ≠ itemIndex it.
Proof.
  unfold itemIndex. intros He. apply (f_equal String.length) in He.
  rewrite !DetectionFacts.length_append in He. simpl in He. lia.
Qed.

Lemma schedule_fresh p it :
  accepted it = true → itemIndex it ∉ collectibleTempIndex p →
  collectiblePromises (schedule p it) = collectiblePromises p ++ [collectibleArgsOf it].
Proof.
  unfold schedule, accepted. fold (itemIndex it). intros -> Hfresh.
  pose proof (address_is_no_index it) as Hne.
  destruct (bool_decide (contractAddress it ∈ collectibleTempIndex p)); simpl;
    by rewrite bool_decide_eq_false_2 by set_solver.
Qed.

Lemma schedule_keeps_promises p it x :
  x ∈ collectiblePromises p → x ∈ collectiblePromises (schedule p it).
Proof.
  unfold schedule.
  destruct (negb (tokenID it =? "")%string && negb (contractAddress it =? "")%string);
    [|done].
  repeat case_bool_decide; simpl; set_solver.
Qed.

Lemma fold_schedule_keeps_promises items p x :
  x ∈ collectiblePromises p → x ∈ collectiblePromises (fold_left schedule items p).
Proof.
  revert p. induction items as [|it items IH]; intros p Hx; simpl; [done|].
  by apply IH, schedule_keeps_promises.
Qed.

Lemma Forall2_elem_l {X Y} (R : X → Y → Prop) l k x :
  Forall2 R l k → x ∈ l → ∃ y, y ∈ k ∧ R x y.
Proof.
  induction 1 as [|x0 y0 l k HR _ IH]; intros Hx; [by apply elem_of_nil in Hx|].
  apply elem_of_cons in Hx as [-> | Hx].
  - exists y0. split; [apply list_elem_of_here | done].
  - destruct (IH Hx) as (y & Hy & HRy). exists y. split; [by apply list_elem_of_further | done].
Qed.

Lemma normalize_complete E A it d a :
  complete it = true → checksum_if_address E (contractAddress it) = Some a →
  _normalizeCollectibleDetails E A (collectibleArgsOf it) d = Some (stored_form a it)
  ∧ keep_collectible (stored_form a it) = true.
Proof.
  unfold complete. intros Hc Ha.
  apply andb_true_iff in Hc as [Hc Hbal]. apply andb_true_iff in Hc as [Hc Hsup].
  apply andb_true_iff in Hc as [Hc Hstd]. apply andb_true_iff in Hc as [Hname Himg].
  split.
  - unfold _normalizeCollectibleDetails. simpl. rewrite Ha. simpl.
    rewrite Hname, Himg, Hstd, Hsup. simpl. by rewrite Hbal.
  - unfold keep_collectible. simpl. by rewrite Hname, Hstd, Hbal.
Qed.



End StoreExtra.

(** ** Further properties of the detection controller *)

Module DetectionExtra.
Import AssetsDetection DetectionMore DetectionFacts.

(** *** Falling back on the contract indexer *)

Lemma covalentPart_holds cm cvm x c :
  oget cvm x = Some c → oget cm x = None → c ∈ covalentPart cm cvm.
Proof.
  intros Hc Hn. unfold covalentPart. apply list_elem_of_omap. exists x. split.
  - apply list_elem_of_fmap. exists (x, c). split; [done | by apply oget_Some_elem].
  - by rewrite Hn, Hc.
Qed.

(** X14. When the marketplace map is empty, or on a network where the
    marketplace does not run, the provider part of the final array is the
    contract indexer's: every collectible of its map whose key the custom
    map lacks is in the array as it is, and nothing else is. *)
Theorem indexer_is_the_fallback E C C' cycle :
  collect E C = (C', Some cycle) →
  isMainnet E || isMatic E = false ∨ okeys (openseaCollectiblesMap cycle) = [] →
  finalArr cycle
  = customNftArr cycle
    ++ covalentPart (customCollectiblesMap cycle) (covalentCollectiblesMap cycle)
  ∧ (∀ x c, oget (covalentCollectiblesMap cycle) x = Some c →
            oget (customCollectiblesMap cycle) x = None → c ∈ finalArr cycle)
  ∧ (∀ e, e ∈ covalentPart (customCollectiblesMap cycle) (covalentCollectiblesMap cycle) →
          oget (covalentCollectiblesMap cycle) (collectibleIndex e) = Some e
          ∧ oget (customCollectiblesMap cycle) (collectibleIndex e) = None).
Proof.
  intros Hcollect Hcase.
  apply collect_shape in Hcollect as (_ & _ & _ & Hcov & Hfinal).
  assert (fromProviders E (customCollectiblesMap cycle) (openseaCollectiblesMap cycle)
            (covalentCollectiblesMap cycle)
          = covalentPart (customCollectiblesMap cycle) (covalentCollectiblesMap cycle))
    as Hpart.
  { unfold fromProviders. destruct Hcase as [-> | ->]; [done|]. simpl.
    by destruct (isMainnet E || isMatic E). }
  rewrite Hpart in Hfinal. split; [done|]. split.
  - intros x c Hc Hn. rewrite Hfinal. apply elem_of_app. right.
    by eapply covalentPart_holds.
  - intros e He. unfold covalentPart in He. apply list_elem_of_omap in He as (x & Hx & He).
    destruct (oget (customCollectiblesMap cycle) x) eqn:Hc; [done|].
    destruct (oget (covalentCollectiblesMap cycle) x) as [c|] eqn:Ho; [|done].
    inversion He; subst e. by rewrite (Hcov x c (oget_Some_elem _ _ _ Ho)).
Qed.

Lemma indexer_is_the_fallback_witness :
  ∃ cycle, (collect Sample2.indexer_only Sample.detector).2 = Some cycle
           ∧ map collectibleIndex (finalArr cycle)
             = ["0xaa_1"; "0xdd_4"; "0xbb_7"; "0xee_9"].
Proof.
  destruct (collect Sample2.indexer_only Sample.detector) as [C' [cycle|]] eqn:Hcollect;
    [|by vm_compute in Hcollect].
  exists cycle. split; [done|].
  destruct (indexer_is_the_fallback Sample2.indexer_only Sample.detector C' cycle Hcollect)
    as (Hfinal & _).
  - right. vm_compute in Hcollect. by inversion Hcollect.
  - rewrite Hfinal. vm_compute in Hcollect. by inversion Hcollect.
Defined.

(** *** Providers that do not answer *)

Lemma covalent_unavailable E C network :
  (∀ api, getCovalentNfts E api = None) →
  (detectCollectiblesFromCovalent E C network).2 = ([], []).
Proof.
  intros Hdown. unfold detectCollectiblesFromCovalent.
  destruct (String.eqb (selectedAddress C) ""); simpl; [done|].
  unfold getOwnerCollectibles_covalent.
  destruct (currentChainId E _); [|done]. by rewrite Hdown.
Qed.

Lemma opensea_unavailable E C :
  (∀ api, getOpenSeaCollectibles E api = None) →
  (detectCollectiblesFromOpensea E C).2 = ([], []).
Proof.
  intros Hdown. unfold detectCollectiblesFromOpensea.
  destruct (negb (isMainnet E) && negb (isMatic E)); [done|].
  destruct (String.eqb (selectedAddress C) ""); simpl; [done|].
  unfold getOwnerCollectibles_opensea. by rewrite Hdown.
Qed.



(** *** A cycle without an active address *)

Lemma merge_by_nil {V} (key : V → string) (old : list V) :
  NoDup (map key old) → AssetController.merge_by key old [] = old.
Proof.
  intros Hnd. rewrite merge_by_spec. simpl.
  unfold AssetController.getObjectFromArrayBasedonKey at 1.
  fold (AssetController.build key [] old).
  rewrite build_fresh by done. simpl. by apply retained_fresh.
Qed.

(** X16. With the active address cleared (after [stopAssetDetection]), a cycle
    queries no provider and hands the store an empty array; the store's
    current views keep their content when their keys are distinct, and
    the token view is not touched. *)
Theorem idle_cycle_adds_nothing E C :
  selectedAddress C = "" → is_Some (_preferencesStore C) →
  let A := assetController C in
  let A' := assetController (detectCollectibles E C) in
  collect E C
  = (set_currentNetwork C (Some (getNetworkNameFromNetworkCode E)), Some empty_cycle)
  ∧ A' = AssetController.addCollectibles (store_env E) A [] false
  ∧ (NoDup (map AssetController.cl_collectibleIndex
              (AssetController.collectibles (AssetController.store A))) →
     AssetController.collectibles (AssetController.store A')
     = AssetController.collectibles (AssetController.store A))
  ∧ (NoDup (map AssetController.byAddress
              (AssetController.collectibleContracts (AssetController.store A))) →
     AssetController.collectibleContracts (AssetController.store A')
     = AssetController.collectibleContracts (AssetController.store A))
  ∧ AssetController.tokens (AssetController.store A')
    = AssetController.tokens (AssetController.store A)
  ∧ AssetController.selectedAddress A' = AssetController.selectedAddress A.
Proof.
  intros Hsel [state Hstate]. simpl.
  assert (collect E C
          = (set_currentNetwork C (Some (getNetworkNameFromNetworkCode E)),
             Some empty_cycle)) as Hcollect.
  { unfold collect, getCustomNfts, detectCollectiblesFromOpensea,
      detectCollectiblesFromCovalent. simpl. rewrite Hstate, Hsel. simpl.
    destruct (isMainnet E || isMatic E) eqn:Hm; rewrite ?Hsel; simpl; [|done].
    destruct (negb (isMainnet E) && negb (isMatic E)); simpl; by rewrite Hsel. }
  split; [done|]. unfold detectCollectibles. rewrite Hcollect. simpl.
  split; [done|].
  unfold AssetController.addCollectibles, AssetController.addCollectibles_try. simpl.
  repeat split.
  - intros Hnd. by apply (merge_by_nil AssetController.cl_collectibleIndex).
  - intros Hnd. by apply (merge_by_nil AssetController.byAddress).
Qed.

Lemma idle_cycle_adds_nothing_witness :
  let stopped := stopAssetDetection Sample.detector in
  (collect Sample.world stopped).2 = Some empty_cycle
  ∧ AssetController.tokens
      (AssetController.store (assetController (detectCollectibles Sample.world stopped)))
    = AssetController.tokens (AssetController.store (assetController stopped)).
Proof.
  destruct (idle_cycle_adds_nothing Sample.world (stopAssetDetection Sample.detector))
    as (Hcollect & _ & _ & _ & Htokens & _); [reflexivity | by eexists |].
  split; [by rewrite Hcollect | exact Htokens].
Defined.

(** *** What a cycle never changes *)

Lemma same_identity_refl C : same_identity C C.
Proof. by repeat split. Qed.

Lemma same_identity_trans C1 C2 C3 :
  same_identity C1 C2 → same_identity C2 C3 → same_identity C1 C3.
Proof. intros (?&?&?) (?&?&?). repeat split; congruence. Qed.

Lemma getCustomNfts_identity E C customNfts force C' r :
  getCustomNfts E C customNfts force = Some (C', r) → same_identity C C'.
Proof.
  unfold getCustomNfts. destruct (String.eqb (selectedAddress C) "");
    [intros [= <- _]; apply same_identity_refl|].
  destruct customNfts as [l|]; simpl; [|done].
  destruct (fold_left _ _ _) as [a m]. destruct force; by intros [= <- _].
Qed.

Lemma detectCollectiblesFromOpensea_identity E C :
  same_identity C (detectCollectiblesFromOpensea E C).1.
Proof.
  unfold detectCollectiblesFromOpensea.
  destruct (negb (isMainnet E) && negb (isMatic E)); [apply same_identity_refl|].
  by destruct (String.eqb (selectedAddress C) "").
Qed.

Lemma detectCollectiblesFromCovalent_identity E C network :
  same_identity C (detectCollectiblesFromCovalent E C network).1.
Proof.
  unfold detectCollectiblesFromCovalent. by destruct (String.eqb (selectedAddress C) "").
Qed.

Lemma collect_identity E C : same_identity C (collect E C).1.
Proof.
  unfold collect. simpl.
  destruct (_preferencesStore C) as [state|] eqn:Hp; [|done].
  destruct (getCustomNfts E _ _ false) as [[C1 [arr cm]]|] eqn:Hc; [|done].
  apply getCustomNfts_identity in Hc.
  assert (same_identity C C1) as H0 by exact Hc.
  destruct (isMainnet E || isMatic E).
  - pose proof (detectCollectiblesFromOpensea_identity E C1) as H1.
    destruct (detectCollectiblesFromOpensea E C1) as [C2 [l2 om]].
    pose proof (detectCollectiblesFromCovalent_identity E C2
                  (getNetworkNameFromNetworkCode E)) as H2.
    destruct (detectCollectiblesFromCovalent E C2 _) as [C3 [l3 cvm]].
    simpl in *. eauto using same_identity_trans.
  - pose proof (detectCollectiblesFromCovalent_identity E C1
                  (getNetworkNameFromNetworkCode E)) as H2.
    destruct (detectCollectiblesFromCovalent E C1 _) as [C3 [l3 cvm]].
    simpl in *. eauto using same_identity_trans.
Qed.

(** X17. A detection cycle never changes the active address, the timer handle
    or the subscribed preferences store; and on a network without a
    chain id in [NFT_SUPPORTED_NETWORKS] it changes nothing at all. *)
Theorem detectAssets_keeps_identity E C :
  same_identity C (detectAssets E C)
  ∧ (supportedNetwork E (getNetworkNameFromNetworkCode E) = None → detectAssets E C = C).
Proof.
  unfold detectAssets, detectCollectibles.
  destruct (supportedNetwork E _); [|split; [apply same_identity_refl | done]].
  split; [|done].
  pose proof (collect_identity E C) as H.
  by destruct (collect E C) as [C1 [cycle|]].
Qed.

(** *** Arming and disarming the timer *)

Lemma cleared_is_empty C W :
  one_timer (C, W) →
  live (match _handle C with Some h => clearInterval W h | None => W end) = ∅.
Proof.
  intros [Hlive _]. simpl in Hlive. apply set_eq. intros h. split; [|set_solver].
  intros Hh. destruct (_handle C) as [h0|] eqn:Hc; simpl in Hh.
  - apply elem_of_difference in Hh as [Hh Hne]. apply Hlive in Hh.
    assert (h = h0) by congruence. set_solver.
  - apply Hlive in Hh. congruence.
Qed.

(** X18. Assigning the interval 0, or any interval outside the main frame,
    leaves no timer armed; the controller object itself is not modified,
    so [_handle] keeps naming the timer that was cancelled. *)
Theorem set_interval_disarms E C W interval :
  sched_reachable (C, W) → interval = 0%Z ∨ isMain E = false →
  live (set_interval E C W interval).2 = ∅
  ∧ (set_interval E C W interval).1 = C
  ∧ ∀ E' h, tick E' C (set_interval E C W interval).2 h = None.
Proof.
  intros Hreach Hcase. apply SchedulerFacts.reachable_one_timer in Hreach.
  pose proof (cleared_is_empty C W Hreach) as Hempty.
  assert (live (set_interval E C W interval).2 = ∅
          ∧ (set_interval E C W interval).1 = C) as [Hl Hc].
  { unfold set_interval. destruct Hcase as [-> | Hmain]; simpl; [done|].
    rewrite Hmain. by destruct (interval =? 0)%Z. }
  repeat split; [done | done |].
  intros E' h. unfold tick. rewrite Hl. by rewrite bool_decide_eq_false_2 by set_solver.
Qed.

Lemma set_interval_disarms_witness :
  live (set_interval Sample.world Sample.constructed.1 Sample.constructed.2 0).2 = ∅.
Proof.
  apply (set_interval_disarms Sample.world Sample.constructed.1 Sample.constructed.2 0).
  - rewrite <- surjective_pairing. apply sched_new.
  - by left.
Defined.



(** *** The preferences listener *)

Lemma getCustomNfts_selected E C l force C' r :
  getCustomNfts E C (Some l) force = Some (C', r) →
  if String.eqb (selectedAddress C) "" then C' = C
  else selectedCustomNfts C' = map nft_address l.
Proof.
  unfold getCustomNfts. destruct (String.eqb (selectedAddress C) "");
    [by intros [= <- _]|]. simpl.
  destruct (fold_left _ _ _) as [a m]. destruct force; by intros [= <- _].
Qed.

(** X20. The listener is idempotent: delivering the same preferences state a
    second time changes nothing, since the first delivery has recorded
    the addresses of the custom entries (or, without an active address,
    has changed nothing). It never changes the active address, the timer
    handle or the subscription. *)
Theorem onPreferencesChange_idempotent E C state :
  onPreferencesChange E (onPreferencesChange E C state) state
  = onPreferencesChange E C state
  ∧ same_identity C (onPreferencesChange E C state).
Proof.
  unfold onPreferencesChange.
  destruct (String.eqb (ps_selectedAddress state) ""); [by split; [|apply same_identity_refl]|].
  destruct (ps_users state !! ps_selectedAddress state) as [userState|];
    [|by split; [|apply same_identity_refl]].
  destruct (bool_decide (selectedCustomNfts C = map nft_address (default [] userState)))
    eqn:Hsame.
  - rewrite Hsame. split; [done | apply same_identity_refl].
  - destruct (getCustomNfts E C (Some (default [] userState)) true) as [[C' r]|] eqn:Hg.
    + pose proof (getCustomNfts_selected _ _ _ _ _ _ Hg) as Hs.
      split; [|by eapply getCustomNfts_identity].
      destruct (String.eqb (selectedAddress C) "").
      * subst C'. by rewrite Hsame, Hg.
      * by rewrite bool_decide_eq_true_2.
    + rewrite Hsame, Hg. split; [done | apply same_identity_refl].
Qed.

(** *** The collectibles of the contract-indexer adapter *)

Lemma tokenImage_truthy nft : truthy (tokenImage nft) = true.
Proof.
  unfold tokenImage, js_or.
  by destruct (truthy (default JUndefined (ed_image <$> external_data nft))) eqn:Ht.
Qed.

Lemma covalentToken_fields p item s nft :
  ∃ c, collectibles (covalentToken p item s nft) = collectibles s ++ [c]
       ∧ collectiblesMap (covalentToken p item s nft)
         = oset (collectiblesMap s) (collectibleIndex c) c
       ∧ contractFallbackLogo (covalentToken p item s nft)
         = (if bool_decide (loop_i s = 0) then tokenImage nft else contractFallbackLogo s)
       ∧ loop_i (covalentToken p item s nft) = S (loop_i s)
       ∧ token_fields item nft (contractFallbackLogo (covalentToken p item s nft)) c.
Proof.
  unfold covalentToken, token_fields, tokenStandard, tokenImage.
  destruct (includes "erc1155" (supports_erc nft)); simpl;
    eexists; (split; [reflexivity|]); repeat split.
Qed.

(** The logo of the collectibles that the loop pushes from the state
    [s] on. *)
Lemma covalent_loop_fields p item nfts s :
  let s' := fold_left (covalentToken p item) nfts s in
  let logo :=
    match nfts with
    | first :: _ => if bool_decide (loop_i s = 0) then tokenImage first
                    else contractFallbackLogo s
    | [] => contractFallbackLogo s
    end in
  ∀ j nft, nfts !! j = Some nft →
    ∃ c, collectibles s' !! (length (collectibles s) + j) = Some c
         ∧ token_fields item nft logo c.
Proof.
  revert s. induction nfts as [|nft0 nfts IH]; intros s; simpl.
  - intros j nft H. by rewrite lookup_nil in H.
  - destruct (covalentToken_fields p item s nft0) as (c0 & Hc0 & _ & Hlogo & Hi & Hf0).
    destruct (covalent_loop p item nfts (covalentToken p item s nft0)) as (_ & Hpre & _).
    specialize (IH (covalentToken p item s nft0)). simpl in IH.
    rewrite Hc0 in Hpre, IH. rewrite length_app in IH. simpl in IH.
    rewrite Hlogo in Hf0.
    intros [|j] nft Hj; simpl in Hj.
    + inversion Hj; subst nft0. exists c0. split; [|done].
      rewrite Nat.add_0_r. destruct Hpre as [k ->].
      rewrite <- app_assoc. by rewrite lookup_app_r, Nat.sub_diag by lia.
    + destruct (IH j nft Hj) as (c & Hc & Hf). exists c. split.
      * rewrite <- Hc. f_equal. lia.
      * assert (match nfts with
                | first :: _ =>
                    if bool_decide (loop_i (covalentToken p item s nft0) = 0)
                    then tokenImage first
                    else contractFallbackLogo (covalentToken p item s nft0)
                | [] => contractFallbackLogo (covalentToken p item s nft0)
                end
                = (if bool_decide (loop_i s = 0) then tokenImage nft0
                   else contractFallbackLogo s)) as <-; [|exact Hf].
        rewrite Hi, Hlogo. destruct nfts; [done|].
        by rewrite bool_decide_eq_false_2 by lia.
Qed.

(** X21. The [j]-th token of a record of type [nft] gives the [j]-th
    collectible of the record: it carries the record's address, symbol
    and logo, the token's identifier and balance, the standard ERC1155
    exactly when the token lists [erc1155], an image that is never empty
    (the placeholder stands in), and as fallback logo the image of the
    record's first token. *)
Theorem covalent_token_fields protocolPrefix item nfts j nft :
  type item = JStr "nft" → nft_data item = Some nfts → nfts !! j = Some nft →
  ∃ c first,
    recordCollectibles protocolPrefix item !! j = Some c
    ∧ nfts !! 0 = Some first
    ∧ token_fields item nft (tokenImage first) c
    ∧ truthy (oread (options c) "image") = true
    ∧ (oread (options c) "standard" = JStr CONTRACT_TYPE_ERC1155
       ↔ "erc1155" ∈ supports_erc nft).
Proof.
  intros Ht Hn Hj. rewrite (recordCollectibles_nft _ _ _ Ht Hn).
  destruct nfts as [|first nfts]; [by rewrite lookup_nil in Hj|].
  destruct (covalent_loop_fields protocolPrefix item (first :: nfts)
              {| contractName := contract_name item; contractFallbackLogo := JUndefined;
                 loop_i := 0; collectibles := []; collectiblesMap := [] |} j nft Hj)
    as (c & Hc & Hf).
  exists c, first. split; [exact Hc|]. split; [done|]. split; [exact Hf|].
  destruct Hf as (_ & _ & Hstd & Himg & _). rewrite Himg, Hstd. split.
  - apply tokenImage_truthy.
  - unfold tokenStandard, includes. by case_bool_decide; split.
Qed.

Lemma covalent_token_fields_witness :
  ∃ c, recordCollectibles "ERC" Sample.two_tokens !! 1 = Some c
       ∧ oread (options c) "contractFallbackLogo" = tokenImage Sample.token_a
       ∧ oread (options c) "standard" = JStr (tokenStandard Sample.token_b).
Proof.
  destruct (covalent_token_fields "ERC" Sample.two_tokens
              [Sample.token_a; Sample.token_b] 1 Sample.token_b)
    as (c & first & Hc & Hfirst & Hf & _); [reflexivity ..|].
  exists c. inversion Hfirst; subst first.
  destruct Hf as (_ & _ & Hstd & _ & Hlogo & _). by repeat split.
Defined.

(** *** The list and the map of an adapter *)

Lemma getObject_snoc {V} (key : V → string) (l : list V) (c : V) :
  AssetController.getObjectFromArrayBasedonKey (l ++ [c]) key
  = oset (AssetController.getObjectFromArrayBasedonKey l key) (key c) c.
Proof. unfold AssetController.getObjectFromArrayBasedonKey. by rewrite fold_left_app. Qed.

Local Abbreviation indexed acc :=
  (acc.2 = AssetController.getObjectFromArrayBasedonKey acc.1 collectibleIndex).

Lemma covalent_loop_indexed p item nfts s :
  collectiblesMap s
  = AssetController.getObjectFromArrayBasedonKey (collectibles s) collectibleIndex →
  collectiblesMap (fold_left (covalentToken p item) nfts s)
  = AssetController.getObjectFromArrayBasedonKey
      (collectibles (fold_left (covalentToken p item) nfts s)) collectibleIndex.
Proof.
  revert s. induction nfts as [|nft nfts IH]; intros s Hs; simpl; [done|].
  apply IH. destruct (covalentToken_fields p item s nft) as (c & -> & -> & _).
  by rewrite getObject_snoc, Hs.
Qed.

Lemma covalentItem_indexed p acc item : indexed acc → indexed (covalentItem p acc item).
Proof.
  intros Hacc. unfold covalentItem. destruct (strict_eq (type item) (JStr "nft")); [|done].
  destruct (nft_data item) as [[|nft nfts]|]; try done.
  by apply covalent_loop_indexed.
Qed.

Lemma openseaAsset_indexed E acc a : indexed acc → indexed (openseaAsset E acc a).
Proof.
  intros Hacc. unfold openseaAsset.
  destruct (toLowerCase <$> schema_name (asset_contract a)) as [st|]; [|done].
  destruct (includes st (SUPPORTED_NFT_STANDARDS E)); [|done]. simpl.
  by rewrite getObject_snoc, Hacc.
Qed.

Lemma fold_indexed {X} (f : list CollectibleDetails * jsobj CollectibleDetails → X →
                          list CollectibleDetails * jsobj CollectibleDetails) l acc :
  (∀ acc x, indexed acc → indexed (f acc x)) → indexed acc → indexed (fold_left f l acc).
Proof.
  intros Hf. revert acc. induction l as [|x l IH]; intros acc Hacc; simpl; [done|].
  by apply IH, Hf.
Qed.

(** X22. Each provider adapter returns a list and a map that agree: the map
    is the list indexed by [collectibleIndex], so every collectible of
    the list has its key in the map, and under a key that several
    collectibles share the map holds the last of them. *)
Theorem provider_map_indexes_list E C network :
  let covalent := (detectCollectiblesFromCovalent E C network).2 in
  let opensea := (detectCollectiblesFromOpensea E C).2 in
  covalent.2 = AssetController.getObjectFromArrayBasedonKey covalent.1 collectibleIndex
  ∧ opensea.2 = AssetController.getObjectFromArrayBasedonKey opensea.1 collectibleIndex
  ∧ (∀ c, c ∈ covalent.1 → is_Some (oget covalent.2 (collectibleIndex c)))
  ∧ (∀ c, c ∈ opensea.1 → is_Some (oget opensea.2 (collectibleIndex c)))
  ∧ (∀ l c, covalent.1 = l ++ [c] → oget covalent.2 (collectibleIndex c) = Some c)
  ∧ (∀ l c, opensea.1 = l ++ [c] → oget opensea.2 (collectibleIndex c) = Some c).
Proof.
  simpl.
  assert (indexed (detectCollectiblesFromCovalent E C network).2) as Hc.
  { unfold detectCollectiblesFromCovalent.
    destruct (String.eqb (selectedAddress C) ""); simpl; [done|].
    apply fold_indexed; [apply covalentItem_indexed | done]. }
  assert (indexed (detectCollectiblesFromOpensea E C).2) as Ho.
  { unfold detectCollectiblesFromOpensea.
    destruct (negb (isMainnet E) && negb (isMatic E)); [done|].
    destruct (String.eqb (selectedAddress C) ""); simpl; [done|].
    apply fold_indexed; [apply openseaAsset_indexed | done]. }
  assert (∀ l c, c ∈ l →
            is_Some (oget (AssetController.getObjectFromArrayBasedonKey l collectibleIndex)
                       (collectibleIndex c))) as Hpresent.
  { intros l c Hin.
    destruct (oget (AssetController.getObjectFromArrayBasedonKey l collectibleIndex)
                (collectibleIndex c)) eqn:Hg; [by eexists|].
    apply getObject_get_None in Hg. exfalso. apply Hg. by apply list_elem_of_fmap_2. }
  split; [exact Hc|]. split; [exact Ho|]. rewrite Hc, Ho.
  split; [by intros; apply Hpresent|]. split; [by intros; apply Hpresent|].
  split; intros l c ->; rewrite getObject_snoc; apply oget_oset_eq.
Qed.

(** *** The collectibles of the marketplace adapter *)

Lemma openseaAsset_supported E acc a c :
  c ∈ (openseaAsset E acc a).1 →
  c ∈ acc.1
  ∨ ∃ schema, schema_name (asset_contract a) = Some schema
       ∧ toLowerCase schema ∈ SUPPORTED_NFT_STANDARDS E
       ∧ oread (options c) "standard" = JStr (toLowerCase schema)
       ∧ tokenID c = as_token_id a
       ∧ contractAddress c = ac_address (asset_contract a).
Proof.
  unfold openseaAsset.
  destruct (schema_name (asset_contract a)) as [schema|]; simpl; [|by left].
  unfold includes. case_bool_decide as Hin; [|by left]. simpl.
  intros Hc. apply elem_of_app in Hc as [Hc | Hc]; [by left|].
  apply list_elem_of_singleton in Hc. subst c. right. exists schema. by repeat split.
Qed.

(** X23. Every collectible that the marketplace adapter returns comes from an
    asset of the response whose schema name, in lower case, is one of the
    recognized standards, and carries that standard; an asset without a
    schema name or with another one contributes nothing. *)
Theorem opensea_collectibles_are_supported E C c :
  c ∈ (detectCollectiblesFromOpensea E C).2.1 →
  ∃ a schema,
    a ∈ getOwnerCollectibles_opensea E (detectCollectiblesFromOpensea E C).1
    ∧ schema_name (asset_contract a) = Some schema
    ∧ toLowerCase schema ∈ SUPPORTED_NFT_STANDARDS E
    ∧ oread (options c) "standard" = JStr (toLowerCase schema)
    ∧ tokenID c = as_token_id a
    ∧ contractAddress c = ac_address (asset_contract a).
Proof.
  unfold detectCollectiblesFromOpensea.
  destruct (negb (isMainnet E) && negb (isMatic E));
    [simpl; intros H; by apply elem_of_nil in H|].
  destruct (String.eqb (selectedAddress C) "");
    [simpl; intros H; by apply elem_of_nil in H|].
  simpl.
  generalize (getOwnerCollectibles_opensea E
                (set_assetController C
                   (AssetController.setSelectedAddress (store_env E) (assetController C)
                      (selectedAddress C)))) as items.
  intros items.
  assert (∀ acc, c ∈ (fold_left (openseaAsset E) items acc).1 →
            c ∈ acc.1
            ∨ ∃ a schema, a ∈ items
                ∧ schema_name (asset_contract a) = Some schema
                ∧ toLowerCase schema ∈ SUPPORTED_NFT_STANDARDS E
                ∧ oread (options c) "standard" = JStr (toLowerCase schema)
                ∧ tokenID c = as_token_id a
                ∧ contractAddress c = ac_address (asset_contract a)) as H.
  { induction items as [|a items IH]; intros acc Hc; simpl in Hc; [by left|].
    destruct (IH _ Hc) as [Hin | (a' & schema & Ha' & Hrest)].
    - apply openseaAsset_supported in Hin as [Hin | (schema & Hrest)]; [by left|].
      right. exists a, schema. split; [apply list_elem_of_here | done].
    - right. exists a', schema. split; [by apply list_elem_of_further | done]. }
  intros Hc. destruct (H _ Hc) as [Hin | Hres]; [by apply elem_of_nil in Hin | done].
Qed.

Lemma opensea_collectibles_are_supported_witness :
  ∃ c a schema,
    c ∈ (detectCollectiblesFromOpensea Sample.market Sample.detector).2.1
    ∧ schema_name (asset_contract a) = Some schema
    ∧ oread (options c) "standard" = JStr (toLowerCase schema).
Proof.
  destruct (detectCollectiblesFromOpensea Sample.market Sample.detector).2.1
    as [|c l] eqn:Hl; [by vm_compute in Hl|].
  exists c.
  destruct (opensea_collectibles_are_supported Sample.market Sample.detector c)
    as (a & schema & _ & Hs & _ & Hstd & _).
  - rewrite Hl. apply list_elem_of_here.
  - exists a, schema. split; [apply list_elem_of_here | by split].
Defined.

End DetectionExtra.

(** ** Properties of the RPC middleware *)

Module MiddlewareExtra.
Import RpcMiddleware.

Lemma js_or_truthy a b : truthy b = true → truthy (js_or a b) = true.
Proof. intros Hb. unfold js_or. by destruct (truthy a) eqn:Ha. Qed.

Lemma js_or_defined a : js_or a JNull ≠ JUndefined.
Proof. unfold js_or. by destruct (truthy a) eqn:Ha; [intros -> |]. Qed.

(** X24. The formatted transaction has one fee model: with both EIP-1559 fee
    fields set it has type [FEE_MARKET], carries the two fields and no
    [gasPrice]; otherwise (also when only one of the two is set) it has
    type [LEGACY], carries [gasPrice] and neither fee field. Its [input]
    and [value] are never empty, no property is listed twice, and the
    block fields and the access list are never [undefined]: without a
    receipt the block fields are [null]. *)
Theorem formatTxMeta_has_one_fee_model T txMeta :
  let r := formatTxMetaForRpcResult T txMeta in
  let p := txParams txMeta in
  let feeMarket := truthy (tp_maxFeePerGas p) && truthy (tp_maxPriorityFeePerGas p) in
  oget r "type" = Some (if feeMarket then FEE_MARKET T else LEGACY T)
  ∧ oget r "gasPrice" = (if feeMarket then None else Some (tp_gasPrice p))
  ∧ oget r "maxFeePerGas" = (if feeMarket then Some (tp_maxFeePerGas p) else None)
  ∧ oget r "maxPriorityFeePerGas"
    = (if feeMarket then Some (tp_maxPriorityFeePerGas p) else None)
  ∧ truthy (oread r "input") = true
  ∧ truthy (oread r "value") = true
  ∧ NoDup (okeys r)
  ∧ Forall (λ k, is_Some (oget r k) ∧ oread r k ≠ JUndefined)
      ["accessList"; "blockHash"; "blockNumber"; "transactionIndex"]
  ∧ (txReceipt txMeta = None →
     Forall (λ k, oread r k = JNull) ["blockHash"; "blockNumber"; "transactionIndex"]).
Proof.
  simpl. unfold formatTxMetaForRpcResult, receiptField.
  pose proof (js_or_truthy (tp_data (txParams txMeta)) (JStr "0x") eq_refl) as Hinput.
  pose proof (js_or_truthy (tp_value (txParams txMeta)) (JStr "0x0") eq_refl) as Hvalue.
  pose proof (js_or_defined (tp_accessList (txParams txMeta))) as Haccess.
  pose proof (js_or_defined (default JUndefined (blockHash <$> txReceipt txMeta))) as Hb1.
  pose proof (js_or_defined (default JUndefined (blockNumber <$> txReceipt txMeta))) as Hb2.
  pose proof (js_or_defined (default JUndefined (transactionIndex <$> txReceipt txMeta)))
    as Hb3.
  destruct (truthy (tp_maxFeePerGas (txParams txMeta))
            && truthy (tp_maxPriorityFeePerGas (txParams txMeta)));
    (split; [|split; [|split; [|split; [|split; [|split; [|split; [|split]]]]]]]);
    try done.
  all: try (apply (bool_decide_unpack _); by vm_compute).
  all: try (repeat (apply Forall_cons; split; [split; [by eexists | done]|]);
            by apply Forall_nil).
  all: intros ->; by repeat constructor.
Qed.


End MiddlewareExtra.
